(** * calendar-combiner: the merge-and-obfuscate core

    A shallow embedding of [combineCalendars] and of the guard of [main]
    from [packages/calendar/combine/index.js], together with the part of
    the ical.js object model ([ICAL.Component], [ICAL.Property], values)
    that [combineCalendars] calls.

    Objects carry an identity ([ObjId]) so that statements can tell the
    object a reference points to from a copy of it.  Code that allocates
    or throws runs in the monad [Js]: a store holding the allocation
    counter, and a completion that is either normal or a thrown
    exception.

    The second part embeds the rest of the file: the reading of the
    configuration, the downloads, the upload, [main], and the lines
    [combineCalendars] logs.

    The third part, [Lazy], is the loop of [combineCalendars] with the
    two calls into ical.js that can throw on a text the parser accepted,
    and relates it to the first. *)

From Stdlib Require Import String Ascii DecimalString List Bool Arith Lia.
From Stdlib Require Import Permutation.
Import ListNotations.
Open Scope string_scope.
Open Scope list_scope.
Set Warnings "-register-all".

(** ** Completions and the [Js] monad *)

Inductive Exception : Type :=
| TypeError (msg : string)
| Error (msg : string).

Inductive Completion (A : Type) : Type :=
| Normal (a : A)
| Throw (e : Exception).
Arguments Normal {A} a.
Arguments Throw {A} e.

Definition ObjId := nat.

Record Store : Type := mkStore { nextId : ObjId }.

Definition Js (A : Type) : Type := Store -> Completion (A * Store).

Definition ret {A} (a : A) : Js A := fun st => Normal (a, st).

Definition bind {A B} (m : Js A) (k : A -> Js B) : Js B :=
  fun st => match m st with
            | Normal (a, st') => k a st'
            | Throw e => Throw e
            end.

Definition lift {A} (c : Completion A) : Js A :=
  fun st => match c with
            | Normal a => Normal (a, st)
            | Throw e => Throw e
            end.

(** [new]: every constructed object gets an identity no other object has. *)
Definition fresh : Js ObjId :=
  fun st => Normal (nextId st, mkStore (S (nextId st))).

Declare Scope js_scope.
Delimit Scope js_scope with js.
Notation "x <- m ;; k" := (bind m (fun x => k))
  (at level 61, m at next level, right associativity) : js_scope.
Notation "' pat <- m ;; k" := (bind m (fun x => match x with pat => k end))
  (at level 61, pat pattern, m at next level, right associativity) : js_scope.
Open Scope js_scope.

(** ** The ical.js object model *)

(** An [ICAL.Timezone]; [ICAL.Timezone.utcTimezone] is the one named UTC. *)
Record Timezone : Type := mkTimezone { tzid : string }.

Definition utcTimezone : Timezone := mkTimezone "UTC".

(** [ICAL.Timezone.localTimezone], the zone object ical.js gives a
    floating time: a date-time written without [Z] and without TZID. *)
Definition localTimezone : Timezone := mkTimezone "floating".

(** A property value as [getFirstValue] hands it out: an [ICAL.Time]
    object, whose [zone] field is a zone object ([localTimezone] for a
    floating date-time) or null, or a primitive string (text, and every
    type this code does not look into). *)
Inductive Value : Type :=
| VTime (text : string) (zone : option Timezone)
| VString (s : string).

(** An [ICAL.Property]: a name, its parameters and its values. *)
Record Property : Type := mkProperty {
  pid : ObjId;
  pname : string;
  pparams : list (string * string);
  pvalues : list Value
}.

(** An [ICAL.Component]: a name, its properties and its subcomponents,
    both in document order. *)
Inductive Component : Type := mkComponent {
  cid : ObjId;
  cname : string;
  properties : list Property;
  components : list Component
}.

Definition withProperties (c : Component) (ps : list Property) : Component :=
  mkComponent (cid c) (cname c) ps (components c).

Definition withComponents (c : Component) (cs : list Component) : Component :=
  mkComponent (cid c) (cname c) (properties c) cs.

Definition withValues (p : Property) (vs : list Value) : Property :=
  mkProperty (pid p) (pname p) (pparams p) vs.

(** [new ICAL.Component(name)], and [new ICAL.Component([name, [], []])]:
    a component with no property and no subcomponent, attached nowhere. *)
Definition newComponent (name : string) : Js Component :=
  id <- fresh ;; ret (mkComponent id name [] []).

(** [new ICAL.Property(name)]: no parameter, no value yet. *)
Definition newProperty (name : string) : Js Property :=
  id <- fresh ;; ret (mkProperty id name [] []).

(** [component.getAllSubcomponents(name)]: the children of the receiver
    that have this name, in order.  It looks at the receiver's own
    subcomponent list only. *)
Definition getAllSubcomponents (this : Component) (name : string)
  : list Component :=
  filter (fun c => cname c =? name) (components this).

(** [component.getFirstProperty(name)]: the first property of that name,
    or null. *)
Definition getFirstProperty (this : Component) (name : string)
  : option Property :=
  find (fun p => pname p =? name) (properties this).

(** [property.getFirstValue()]: the first value, or null when there is
    none.  The values of a [Property] are held decoded; the decoding
    itself, which ical.js puts off until this call and which can throw, is
    in [Lazy.getFirstPropertyValue]. *)
Definition getFirstValue (this : Property) : option Value :=
  hd_error (pvalues this).

(** [component.getFirstPropertyValue(name)]. *)
Definition getFirstPropertyValue (this : Component) (name : string)
  : option Value :=
  match getFirstProperty this name with
  | Some prop => getFirstValue prop
  | None => None
  end.

(** Removal of the object with a given identity from a list of objects:
    the first entry that is this object goes, the others stay in order. *)
Fixpoint removeObject {A} (ident : A -> ObjId) (i : ObjId) (l : list A)
  : list A :=
  match l with
  | [] => []
  | x :: rest =>
      if ident x =? i then rest else x :: removeObject ident i rest
  end%nat.

(** In-place update of the object with a given identity. *)
Fixpoint updateObject {A} (ident : A -> ObjId) (i : ObjId) (f : A -> A)
  (l : list A) : list A :=
  match l with
  | [] => []
  | x :: rest =>
      if ident x =? i then f x :: rest
      else x :: updateObject ident i f rest
  end%nat.

(** [component.removeProperty(property)], by object identity. *)
Definition removeProperty (this : Component) (property : Property)
  : Component :=
  withProperties this (removeObject pid (pid property) (properties this)).

(** [component.removeSubcomponent(component)], by object identity. *)
Definition removeSubcomponent (this : Component) (component : Component)
  : Component :=
  withComponents this (removeObject cid (cid component) (components this)).

(** [component.addProperty(property)].  The argument is whatever the
    caller passes: null is not an [ICAL.Property] and is refused with a
    TypeError.  A property that sits in a component ([parent]) is first
    removed from it, then pushed at the end of the receiver's properties.
    Returns the receiver and the former parent as the call leaves them. *)
Definition addProperty (this : Component) (property : option Property)
  (parent : option Component) : Completion (Component * option Component) :=
  match property with
  | None => Throw (TypeError "must be instance of ICAL.Property")
  | Some prop =>
      Normal (withProperties this (properties this ++ [prop]),
              option_map (fun p => removeProperty p prop) parent)
  end.

(** [component.addSubcomponent(component)]: the same for subcomponents. *)
Definition addSubcomponent (this : Component) (component : Component)
  (parent : option Component) : Component * option Component :=
  (withComponents this (components this ++ [component]),
   option_map (fun p => removeSubcomponent p component) parent).

(** [property.setValue(value)]: the property holds this one value. *)
Definition setValue (this : Property) (value : Value) : Property :=
  withValues this [value].

(** [component.addPropertyWithValue(name, value)]. *)
Definition addPropertyWithValue (this : Component) (name : string)
  (value : Value) : Js Component :=
  prop <- newProperty name ;;
  '(this', _) <- lift (addProperty this (Some (setValue prop value)) None) ;;
  ret this'.

(** [component.updatePropertyWithValue(name, value)]: sets the value of the
    first property of that name, or adds the property when there is none. *)
Definition updatePropertyWithValue (this : Component) (name : string)
  (value : Value) : Js Component :=
  match getFirstProperty this name with
  | Some prop =>
      ret (withProperties this
             (updateObject pid (pid prop) (fun p => setValue p value)
                (properties this)))
  | None => addPropertyWithValue this name value
  end.

(** ** JavaScript truthiness and member access on a value *)

(** [startDate && ...]: null and the empty string are falsy, objects and
    other strings are truthy. *)
Definition truthy (v : option Value) : bool :=
  match v with
  | None => false
  | Some (VString s) => negb (s =? "")
  | Some (VTime _ _) => true
  end.

(** [startDate.zone]: reading a member of null throws; a string has no
    such member (undefined, here [None]). *)
Definition readZone (v : option Value) : Completion (option Timezone) :=
  match v with
  | None => Throw (TypeError "Cannot read properties of null (reading 'zone')")
  | Some (VTime _ z) => Normal z
  | Some (VString _) => Normal None
  end.

(** [startDate.zone = z]: sets the field of an [ICAL.Time]; on a primitive
    string the assignment is dropped (the module is not in strict mode). *)
Definition writeZone (z : Timezone) (v : Value) : Value :=
  match v with
  | VTime t _ => VTime t (Some z)
  | VString s => VString s
  end.

(** The object [startDate] is the first value of the first property of
    that name; assigning its [zone] field changes it where it sits. *)
Definition onFirstValue (f : Value -> Value) (p : Property) : Property :=
  withValues p match pvalues p with
               | [] => []
               | v :: vs => f v :: vs
               end.

Fixpoint onFirst {A} (test : A -> bool) (f : A -> A) (l : list A) : list A :=
  match l with
  | [] => []
  | x :: rest => if test x then f x :: rest else x :: onFirst test f rest
  end.

Definition assignZone (event : Component) (name : string) (z : Timezone)
  : Component :=
  withProperties event
    (onFirst (fun p => pname p =? name) (onFirstValue (writeZone z))
       (properties event)).

Definition isSome {A} (o : option A) : bool :=
  match o with Some _ => true | None => false end.

Definition orElse {A} (o : option A) (d : A) : A :=
  match o with Some a => a | None => d end.

(** ** combineCalendars *)

Definition essentialProps : list string :=
  ["dtstart"; "dtend"; "duration"; "rrule"; "uid"].

(** A child object of [calendar] that was changed in place: the calendar
    holds it in its new state. *)
Definition storeSubcomponent (calendar child : Component) : Component :=
  withComponents calendar
    (updateObject cid (cid child) (fun _ => child) (components calendar)).

(** [essentialProps.forEach]: each property found in [event] is handed to
    [obfuscatedEvent.addProperty]; [event] is its parent at that moment. *)
Fixpoint copyEssentialProps (propNames : list string)
  (event obfuscatedEvent : Component) : Js (Component * Component) :=
  match propNames with
  | [] => ret (event, obfuscatedEvent)
  | propName :: rest =>
      let prop := getFirstProperty event propName in
      if isSome prop then
        '(obfuscatedEvent', parent) <-
           lift (addProperty obfuscatedEvent prop (Some event)) ;;
        copyEssentialProps rest (orElse parent event) obfuscatedEvent'
      else copyEssentialProps rest event obfuscatedEvent
  end.

(** The statements on [startDate]. *)
Definition normalizeStart (event : Component) : Js Component :=
  let startDate := getFirstPropertyValue event "dtstart" in
  if truthy startDate then
    zone <- lift (readZone startDate) ;;
    if isSome zone then ret event
    else ret (assignZone event "dtstart" utcTimezone)
  else ret event.

(** The obfuscation branch: builds the new event out of [event].  Returns
    the source event as the branch leaves it, and the new event. *)
Definition obfuscateEvent (event : Component) : Js (Component * Component) :=
  obfuscatedEvent <- newComponent "vevent" ;;
  '(sourceEvent, obfuscatedEvent) <-
     copyEssentialProps essentialProps event obfuscatedEvent ;;
  obfuscatedEvent <-
     updatePropertyWithValue obfuscatedEvent "summary" (VString "BUSY") ;;
  ret (sourceEvent, obfuscatedEvent).

(** The body of [events.forEach].  [event] is a child of [calendar]; the
    new event of the obfuscation branch has no parent.  Returns the source
    calendar and the combined calendar as the iteration leaves them. *)
Definition processEvent (obfuscate : bool)
  (event calendar combinedCalendar : Component) : Js (Component * Component) :=
  '(event, parent, calendar) <-
     (if obfuscate then
        '(sourceEvent, obfuscatedEvent) <- obfuscateEvent event ;;
        ret (obfuscatedEvent, None, storeSubcomponent calendar sourceEvent)
      else ret (event, Some calendar, calendar)) ;;
  event <- normalizeStart event ;;
  let '(combinedCalendar, parent) :=
    addSubcomponent combinedCalendar event parent in
  ret (orElse parent calendar, combinedCalendar).

Fixpoint forEachEvent (obfuscate : bool) (events : list Component)
  (calendar combinedCalendar : Component) : Js (Component * Component) :=
  match events with
  | [] => ret (calendar, combinedCalendar)
  | event :: rest =>
      '(calendar, combinedCalendar) <-
         processEvent obfuscate event calendar combinedCalendar ;;
      forEachEvent obfuscate rest calendar combinedCalendar
  end.

Section Combine.

(** What the loop has of one source: the component
    [new ical.Component(ical.parse(calendarData))] with its values as
    ical.js decodes them, or the exception the source ends the run with.
    [Lazy] takes this apart into the parser, the wrapped value and the
    decoding, each at its line. *)
Variable parse : string -> Completion Component.

(** The body of [calendars.forEach]. *)
Definition processCalendar (obfuscate : bool) (calendarData : string)
  (combinedCalendar : Component) : Js (Component * Component) :=
  calendar <- lift (parse calendarData) ;;
  let events := getAllSubcomponents calendar "vevent" in
  forEachEvent obfuscate events calendar combinedCalendar.

(** Returns, with the combined calendar, the parsed source calendars as
    the loop leaves them. *)
Fixpoint forEachCalendar (obfuscate : bool) (calendars : list string)
  (combinedCalendar : Component) : Js (list Component * Component) :=
  match calendars with
  | [] => ret ([], combinedCalendar)
  | calendarData :: rest =>
      '(calendar, combinedCalendar) <-
         processCalendar obfuscate calendarData combinedCalendar ;;
      '(others, combinedCalendar) <-
         forEachCalendar obfuscate rest combinedCalendar ;;
      ret (calendar :: others, combinedCalendar)
  end.

Definition combineCalendarsAndSources (calendars : list string)
  (obfuscate : bool) : Js (list Component * Component) :=
  combinedCalendar <- newComponent "vcalendar" ;;
  forEachCalendar obfuscate calendars combinedCalendar.

Definition combineCalendars (calendars : list string) (obfuscate : bool)
  : Js Component :=
  '(_, combinedCalendar) <- combineCalendarsAndSources calendars obfuscate ;;
  ret combinedCalendar.

End Combine.

(** The check of [main] on the number of configured calendar URLs. *)
Definition requireTwoUrls (urls : list string) : Completion unit :=
  if (length urls <? 2)%nat
  then Throw (Error "At least two calendar URLs are required")
  else Normal tt.


(** * Functional description of the loops *)

Definition hasZone (v : option Value) : bool :=
  match v with
  | Some (VTime _ (Some _)) => true
  | _ => false
  end.

(** What [normalizeStart] leaves. *)
Definition zoned (event : Component) : Component :=
  let startDate := getFirstPropertyValue event "dtstart" in
  if truthy startDate && negb (hasZone startDate)
  then assignZone event "dtstart" utcTimezone
  else event.

(** The same on the list of properties of the event. *)
Definition zonedProperties (ps : list Property) : list Property :=
  let startDate :=
    match find (fun p => pname p =? "dtstart") ps with
    | Some prop => getFirstValue prop
    | None => None
    end in
  if truthy startDate && negb (hasZone startDate)
  then onFirst (fun p => pname p =? "dtstart")
         (onFirstValue (writeZone utcTimezone)) ps
  else ps.

(** The properties [copyEssentialProps] moves, in the order it moves them. *)
Fixpoint copied (propNames : list string) (event : Component)
  : list Property :=
  match propNames with
  | [] => []
  | propName :: rest =>
      match getFirstProperty event propName with
      | Some prop => prop :: copied rest (removeProperty event prop)
      | None => copied rest event
      end
  end.

(** The source event once [copyEssentialProps] is through with it. *)
Fixpoint leftover (propNames : list string) (event : Component) : Component :=
  match propNames with
  | [] => event
  | propName :: rest =>
      match getFirstProperty event propName with
      | Some prop => leftover rest (removeProperty event prop)
      | None => leftover rest event
      end
  end.

Definition busySummary (id : ObjId) : Property :=
  mkProperty id "summary" [] [VString "BUSY"].

(** The event [obfuscateEvent] builds when the allocator stands at [id]. *)
Definition redactedAs (id : ObjId) (event : Component) : Component :=
  mkComponent id "vevent"
    (copied essentialProps event ++ [busySummary (S id)]) [].

(** The event one iteration appends. *)
Definition perEvent (obfuscate : bool) (id : ObjId) (event : Component)
  : Component :=
  zoned (if obfuscate then redactedAs id event else event).

Definition afterEvent (obfuscate : bool) (id : ObjId) : ObjId :=
  if obfuscate then S (S id) else id.

Fixpoint appended (obfuscate : bool) (id : ObjId) (events : list Component)
  : list Component :=
  match events with
  | [] => []
  | event :: rest =>
      perEvent obfuscate id event :: appended obfuscate (afterEvent obfuscate id) rest
  end.

Fixpoint afterEvents (obfuscate : bool) (id : ObjId) (events : list Component)
  : ObjId :=
  match events with
  | [] => id
  | _ :: rest => afterEvents obfuscate (afterEvent obfuscate id) rest
  end.

(** The source calendar after the iterations over [events]. *)
Fixpoint sourceAfter (obfuscate : bool) (events : list Component)
  (calendar : Component) : Component :=
  match events with
  | [] => calendar
  | event :: rest =>
      sourceAfter obfuscate rest
        (if obfuscate
         then storeSubcomponent calendar (leftover essentialProps event)
         else removeSubcomponent calendar (zoned event))
  end.

(** A source event with its essential properties taken out, when it is
    one of those the loop went through. *)
Definition strippedIf (ids : list ObjId) (c : Component) : Component :=
  if existsb (Nat.eqb (cid c)) ids then leftover essentialProps c else c.

(** The identities of the properties obfuscation moves out of an event. *)
Definition movedIds (event : Component) : list ObjId :=
  map pid (copied essentialProps event).

(** A source calendar whose events have lost their essential properties. *)
Definition strippedCalendar (calendar : Component) : Component :=
  withComponents calendar
    (map (fun c => if cname c =? "vevent"
                   then leftover essentialProps c else c)
       (components calendar)).

Definition vevents (calendar : Component) : list Component :=
  getAllSubcomponents calendar "vevent".

(** All the sources parse, and these are their trees. *)
Fixpoint parseAll (parse : string -> Completion Component)
  (calendars : list string) : Completion (list Component) :=
  match calendars with
  | [] => Normal []
  | calendarData :: rest =>
      match parse calendarData, parseAll parse rest with
      | Normal t, Normal ts => Normal (t :: ts)
      | Throw e, _ => Throw e
      | _, Throw e => Throw e
      end
  end.

(** The first property of each of the names, for the names that occur. *)
Definition firstProperties (propNames : list string) (event : Component)
  : list Property :=
  flat_map (fun n => match getFirstProperty event n with
                     | Some p => [p]
                     | None => []
                     end) propNames.

(** Pairwise distinct identities. *)
Fixpoint distinct (ids : list ObjId) : bool :=
  match ids with
  | [] => true
  | i :: rest => negb (existsb (Nat.eqb i) rest) && distinct rest
  end.

(** The identities of a component, of its properties and of everything
    below it. *)
Fixpoint objIds (c : Component) : list ObjId :=
  cid c :: map pid (properties c) ++ flat_map objIds (components c).

(** A component without the identities: what two components that are
    different objects can have in common. *)
Inductive Content : Type :=
| mkContent (name : string)
    (props : list (string * list (string * string) * list Value))
    (subs : list Content).

Definition propertyContent (p : Property)
  : string * list (string * string) * list Value :=
  (pname p, pparams p, pvalues p).

Fixpoint contentOf (c : Component) : Content :=
  mkContent (cname c) (map propertyContent (properties c))
    (map contentOf (components c)).

(** The search the specification describes: the components of a given
    name anywhere below [c], direct children or nested at any depth. *)
Fixpoint descendantsNamed (name : string) (c : Component) : list Component :=
  flat_map (fun s => (if cname s =? name then [s] else [])
                       ++ descendantsNamed name s)
    (components c).

(** A floating time: one that holds the zone object [localTimezone],
    as a date-time without timezone does, or no zone object at all. *)
Definition floating (v : Value) : bool :=
  match v with
  | VTime _ None => true
  | VTime _ (Some z) => tzid z =? tzid localTimezone
  | VString _ => false
  end.

(** The value of no [dtstart] property of any event of [combined] is
    floating. *)
Definition everyStartZoned (combined : Component) : bool :=
  forallb (fun a =>
             forallb (fun p => negb (pname p =? "dtstart")
                               || match getFirstValue p with
                                  | Some v => negb (floating v)
                                  | None => true
                                  end)
               (properties a))
    (components combined).

(** The identities of the properties of [a] that are properties of [e]. *)
Definition sharedProperties (a e : Component) : list ObjId :=
  filter (fun i => existsb (Nat.eqb i) (map pid (properties e)))
    (map pid (properties a)).

(** ** Sample calendars *)

Module Sample.

(** One event at 10:00 UTC, with a summary and a location. *)
Definition dentist : Component :=
  mkComponent 2 "vevent"
    [mkProperty 3 "summary" [] [VString "Dentist"];
     mkProperty 4 "dtstart" []
       [VTime "2024-01-01T10:00:00" (Some utcTimezone)];
     mkProperty 5 "location" [] [VString "Clinic"];
     mkProperty 6 "uid" [] [VString "a@example.org"]] [].

Definition calendarA : Component :=
  mkComponent 0 "vcalendar"
    [mkProperty 1 "version" [] [VString "2.0"]] [dentist].

(** One weekly event with a floating start, [DTSTART:20240102T090000]. *)
Definition weekly : Component :=
  mkComponent 11 "vevent"
    [mkProperty 12 "rrule" [] [VString "FREQ=WEEKLY"];
     mkProperty 13 "dtstart" []
       [VTime "2024-01-02T09:00:00" (Some localTimezone)];
     mkProperty 14 "description" [] [VString "Standup"]] [].

(** One event with no start at all. *)
Definition undated : Component :=
  mkComponent 15 "vevent"
    [mkProperty 16 "uid" [] [VString "b@example.org"];
     mkProperty 17 "summary" [] [VString "Someday"]] [].

Definition calendarB : Component :=
  mkComponent 10 "vcalendar" [] [weekly; undated].

(** One event with two start properties, both floating. *)
Definition twoStarts : Component :=
  mkComponent 21 "vevent"
    [mkProperty 22 "dtstart" []
       [VTime "2024-02-01T08:00:00" (Some localTimezone)];
     mkProperty 23 "dtstart" []
       [VTime "2024-02-01T18:00:00" (Some localTimezone)]] [].

Definition calendarC : Component :=
  mkComponent 20 "vcalendar" [] [twoStarts].

(** One event below a grouping component. *)
Definition nested : Component :=
  mkComponent 32 "vevent"
    [mkProperty 33 "dtstart" []
       [VTime "2024-03-01T12:00:00" (Some utcTimezone)]] [].

Definition calendarD : Component :=
  mkComponent 30 "vcalendar" [] [mkComponent 31 "x-group" [] [nested]].

Definition parse (calendarData : string) : Completion Component :=
  if calendarData =? "A" then Normal calendarA
  else if calendarData =? "B" then Normal calendarB
  else if calendarData =? "C" then Normal calendarC
  else if calendarData =? "D" then Normal calendarD
  else Throw (Error "invalid ical body").

Definition store : Store := mkStore 100.

End Sample.

(** * Configuration, download and upload

    [getCalendarUrls], [downloadCalendar], [uploadToSpaces] and [main].
    The environment, [fetch], the serializer and [s3.putObject] are
    parameters; what these functions write to the console is left out. *)

(** ** JavaScript string operations

    Strings are byte strings, in UTF-8 where a character is not ASCII. *)

(** [s.split(sep)] for a one-character separator: the pieces between the
    separators, the empty ones too; a string without the separator is its
    only piece. *)
Fixpoint split (sep : ascii) (s : string) : list string :=
  match s with
  | EmptyString => [EmptyString]
  | String c rest =>
      if Ascii.eqb c sep then EmptyString :: split sep rest
      else match split sep rest with
           | piece :: pieces => String c piece :: pieces
           | [] => [String c EmptyString]
           end
  end.

(** The white space [trim] removes (WhiteSpace and LineTerminator of
    ECMAScript): TAB, LF, VT, FF, CR and SPACE; U+00A0; U+1680,
    U+2000..U+200A, U+2028, U+2029, U+202F, U+205F, U+3000 and U+FEFF,
    by the bytes of their encoding. *)
Definition isWhiteSpace1 (a : ascii) : bool :=
  let x := nat_of_ascii a in
  ((9 <=? x) && (x <=? 13) || (x =? 32))%nat.

Definition isWhiteSpace2 (a b : ascii) : bool :=
  ((nat_of_ascii a =? 194) && (nat_of_ascii b =? 160))%nat.

Definition isWhiteSpace3 (a b c : ascii) : bool :=
  let x := nat_of_ascii a in
  let y := nat_of_ascii b in
  let z := nat_of_ascii c in
  ((x =? 225) && (y =? 154) && (z =? 128)
   || (x =? 226) && (y =? 128)
      && ((128 <=? z) && (z <=? 138) || (z =? 168) || (z =? 169)
          || (z =? 175))
   || (x =? 226) && (y =? 129) && (z =? 159)
   || (x =? 227) && (y =? 128) && (z =? 128)
   || (x =? 239) && (y =? 187) && (z =? 191))%nat.

(** The rest of [s] after the character it starts with, when that is one
    of one, two or three bytes that the tests accept. *)
Definition dropOne (w1 : ascii -> bool) (w2 : ascii -> ascii -> bool)
  (w3 : ascii -> ascii -> ascii -> bool) (s : string) : option string :=
  match s with
  | EmptyString => None
  | String a r1 =>
      if w1 a then Some r1
      else match r1 with
           | EmptyString => None
           | String b r2 =>
               if w2 a b then Some r2
               else match r2 with
                    | EmptyString => None
                    | String c r3 => if w3 a b c then Some r3 else None
                    end
           end
  end.

(** Dropping such characters as long as there is one, at most [n] times. *)
Fixpoint dropAll (w1 : ascii -> bool) (w2 : ascii -> ascii -> bool)
  (w3 : ascii -> ascii -> ascii -> bool) (n : nat) (s : string) : string :=
  match n with
  | O => s
  | S n' =>
      match dropOne w1 w2 w3 s with
      | Some rest => dropAll w1 w2 w3 n' rest
      | None => s
      end
  end.

Fixpoint reverse (s : string) : string :=
  match s with
  | EmptyString => EmptyString
  | String c rest => (reverse rest ++ String c EmptyString)%string
  end.

(** [s.trimStart()]. *)
Definition trimStart (s : string) : string :=
  dropAll isWhiteSpace1 isWhiteSpace2 isWhiteSpace3 (String.length s) s.

(** [s.trimEnd()]: the same from the end, the bytes of a character met in
    reverse order. *)
Definition trimEnd (s : string) : string :=
  reverse
    (dropAll isWhiteSpace1 (fun a b => isWhiteSpace2 b a)
       (fun a b c => isWhiteSpace3 c b a) (String.length s) (reverse s)).

(** [s.trim()]. *)
Definition trim (s : string) : string := trimEnd (trimStart s).

Fixpoint countChar (c : ascii) (s : string) : nat :=
  match s with
  | EmptyString => 0
  | String a rest => (if Ascii.eqb a c then 1 else 0) + countChar c rest
  end.

(** ** getCalendarUrls *)

(** [process.env.CALENDAR_URLS] is undefined ([None]) or a string. *)
Definition getCalendarUrls (CALENDAR_URLS : option string) : list string :=
  match CALENDAR_URLS with
  | None => []
  | Some urlString =>
      if urlString =? "" then []
      else map trim (split "," urlString)
  end.

(** ** main *)

(** A member of [args], the parameters of the invocation as the platform
    decodes them from JSON: absent, a boolean, a string, or another JSON
    value (a number, null, an array, an object). *)
Inductive JsValue : Type :=
| JUndefined
| JBoolean (b : bool)
| JString (s : string)
| JOther.

Record Args : Type := mkArgs {
  outputKey : JsValue;
  obfuscateArg : JsValue;
  verboseArg : JsValue
}.

(** [v === "true" || v === true]. *)
Definition isTrue (v : JsValue) : bool :=
  match v with
  | JString s => s =? "true"
  | JBoolean b => b
  | _ => false
  end.

Record Response : Type := mkResponse { body : string; statusCode : nat }.

(** What [fetch] resolves with; [text] is the outcome of
    [response.text()]. *)
Record HttpResponse : Type := mkHttpResponse {
  status : nat;
  text : Completion string
}.

(** The parameters of [s3.putObject]. *)
Record PutObjectParams : Type := mkPutObjectParams {
  Bucket : string;
  Key : JsValue;
  Body : string;
  ContentType : string;
  ACL : string
}.

(** What reaches the network. *)
Inductive Effect : Type :=
| Fetch (url : string)
| PutObject (params : PutObjectParams).

(** An asynchronous computation: the requests it issues, in the order it
    issues them, and how its promise settles. *)
Definition IO (A : Type) : Type := (list Effect * Completion A)%type.

Definition ioRet {A} (a : A) : IO A := ([], Normal a).

Definition ioBind {A B} (m : IO A) (k : A -> IO B) : IO B :=
  match m with
  | (issued, Normal a) => let '(more, r) := k a in (issued ++ more, r)
  | (issued, Throw e) => (issued, Throw e)
  end.

Definition ioLift {A} (c : Completion A) : IO A := ([], c).

Declare Scope io_scope.
Delimit Scope io_scope with io.
Notation "x <~ m ;; k" := (ioBind m (fun x => k))
  (at level 61, m at next level, right associativity) : io_scope.

Definition message (e : Exception) : string :=
  match e with
  | TypeError msg => msg
  | Error msg => msg
  end.

Definition fulfilled {A} (outcomes : list (Completion A)) : list A :=
  flat_map (fun c => match c with Normal a => [a] | Throw _ => [] end)
    outcomes.

Definition rejections {A} (outcomes : list (Completion A)) : list Exception :=
  flat_map (fun c => match c with Normal _ => [] | Throw e => [e] end)
    outcomes.

Section Main.

(** [process.env.BUCKET_NAME] and [process.env.CALENDAR_URLS]. *)
Variable BUCKET_NAME : option string.
Variable CALENDAR_URLS : option string.

(** The outcome of [fetch(url)]. *)
Variable fetch : string -> Completion HttpResponse.

(** Of several rejections, the one that came first in time. *)
Variable firstRejected : list Exception -> Exception.

Variable parse : string -> Completion Component.

(** [calendar.toString()], the serializer of ical.js. *)
Variable stringify : Component -> string.

(** The outcome of [s3.putObject(params).promise()]. *)
Variable putObject : PutObjectParams -> Completion unit.

(** The allocator when [combineCalendars] is called. *)
Variable heap : Store.

(** [fetch(url)], then [response.text()]. *)
Definition downloadCalendar (url : string) : IO string :=
  ([Fetch url],
   match fetch url with
   | Normal response => text response
   | Throw e => Throw e
   end).

(** [Promise.all(promises)]: the promises are all under way; it is
    fulfilled with their values in order when all are, and rejected with
    the first rejection otherwise. *)
Definition promiseAll {A} (promises : list (IO A)) : IO (list A) :=
  (flat_map fst promises,
   match rejections (map snd promises) with
   | [] => Normal (fulfilled (map snd promises))
   | e :: es => Throw (firstRejected (e :: es))
   end).

(** The [catch] of [uploadToSpaces] throws the error again. *)
Definition uploadToSpaces (calendar : Component) (bucketName : string)
  (objectKey : JsValue) : IO unit :=
  let calendarString := stringify calendar in
  let params :=
    mkPutObjectParams bucketName objectKey calendarString
      "text/calendar" "public-read" in
  ([PutObject params], putObject params).

(** The [try] block of [main]. *)
Definition mainTry (args : Args) (obfuscate : bool) : IO unit :=
  (match BUCKET_NAME with
   | None => ioLift (Throw (Error "BUCKET_NAME environment variable is not set"))
   | Some bucketName =>
       if bucketName =? ""
       then ioLift (Throw (Error "BUCKET_NAME environment variable is not set"))
       else
         let urls := getCalendarUrls CALENDAR_URLS in
         _ <~ ioLift (requireTwoUrls urls) ;;
         calendars <~ promiseAll (map downloadCalendar urls) ;;
         combinedCalendar <~
           ioLift (match combineCalendars parse calendars obfuscate heap with
                   | Normal (combined, _) => Normal combined
                   | Throw e => Throw e
                   end) ;;
         uploadToSpaces combinedCalendar bucketName (outputKey args)
   end)%io.

(** [main(args)]: [None] stands for an [args] that is undefined or null,
    on which the destructuring at the head of the function throws.
    [JSON.stringify(args)], evaluated ahead of the [try], returns for
    parameters decoded from JSON; the line it goes into is console
    output. *)
Definition main (args : option Args) : IO Response :=
  match args with
  | None =>
      ioLift (Throw (TypeError "Cannot destructure property of undefined"))
  | Some a =>
      let obfuscate := isTrue (obfuscateArg a) in
      match mainTry a obfuscate with
      | (issued, Normal _) =>
          (issued,
           Normal (mkResponse "Calendars combined and uploaded successfully"
                     200))
      | (issued, Throw error) =>
          (issued,
           Normal (mkResponse ("Error: " ++ message error)%string 500))
      end
  end.

End Main.

(** ** The console output of combineCalendars *)

(** A number and a boolean inside a template literal. *)
Definition showNumber (n : nat) : string :=
  NilZero.string_of_uint (Nat.to_uint n).

Definition showBoolean (b : bool) : string :=
  if b then "true" else "false".

(** [log(message)] under the global [verbose]: the lines it writes. *)
Definition log (verbose : bool) (message : string) : list string :=
  if verbose then [message] else [].

(** A computation that writes to the console: what is written stays
    written when the computation throws. *)
Definition Logged (A : Type) : Type :=
  Store -> list string * Completion (A * Store).

Definition written {A} (lines : list string) (a : A) : Logged A :=
  fun st => (lines, Normal (a, st)).

Definition quietly {A} (m : Js A) : Logged A := fun st => ([], m st).

Definition andThen {A B} (m : Logged A) (k : A -> Logged B) : Logged B :=
  fun st =>
    match m st with
    | (lines, Normal (a, st')) =>
        let '(more, r) := k a st' in (lines ++ more, r)
    | (lines, Throw e) => (lines, Throw e)
    end.

Declare Scope logged_scope.
Delimit Scope logged_scope with logged.
Notation "x <<- m ;; k" := (andThen m (fun x => k))
  (at level 61, m at next level, right associativity) : logged_scope.
Notation "' pat <<- m ;; k" :=
  (andThen m (fun x => match x with pat => k end))
  (at level 61, pat pattern, m at next level, right associativity)
  : logged_scope.

(** [events.forEach] with the counter [totalEvents]. *)
Fixpoint forEachEventCounting (obfuscate : bool) (events : list Component)
  (calendar combinedCalendar : Component) (totalEvents : nat)
  : Js (Component * Component * nat) :=
  match events with
  | [] => ret (calendar, combinedCalendar, totalEvents)
  | event :: rest =>
      '(calendar, combinedCalendar) <-
         processEvent obfuscate event calendar combinedCalendar ;;
      forEachEventCounting obfuscate rest calendar combinedCalendar
        (S totalEvents)
  end.

Section CombineLogged.

Variable parse : string -> Completion Component.
Variable verbose : bool.

(** The body of [calendars.forEach] with its two log lines. *)
Definition processCalendarLogged (obfuscate : bool) (index : nat)
  (calendarData : string) (combinedCalendar : Component) (totalEvents : nat)
  : Logged (Component * nat) :=
  (_ <<- written (log verbose
                    ("Processing calendar " ++ showNumber (index + 1))%string)
           tt ;;
   calendar <<- quietly (lift (parse calendarData)) ;;
   let events := getAllSubcomponents calendar "vevent" in
   _ <<- written (log verbose
                    ("Calendar " ++ showNumber (index + 1) ++ " has "
                       ++ showNumber (length events) ++ " events")%string)
           tt ;;
   '(_, combinedCalendar, totalEvents) <<-
      quietly (forEachEventCounting obfuscate events calendar
                 combinedCalendar totalEvents) ;;
   written [] (combinedCalendar, totalEvents))%logged.

Fixpoint forEachCalendarLogged (obfuscate : bool) (index : nat)
  (calendars : list string) (combinedCalendar : Component)
  (totalEvents : nat) : Logged (Component * nat) :=
  match calendars with
  | [] => written [] (combinedCalendar, totalEvents)
  | calendarData :: rest =>
      ('(combinedCalendar, totalEvents) <<-
          processCalendarLogged obfuscate index calendarData
            combinedCalendar totalEvents ;;
       forEachCalendarLogged obfuscate (S index) rest combinedCalendar
         totalEvents)%logged
  end.

(** [combineCalendars] with everything it logs. *)
Definition combineCalendarsLogged (calendars : list string)
  (obfuscate : bool) : Logged Component :=
  (_ <<- written (log verbose
                    ("Combining " ++ showNumber (length calendars)
                       ++ " calendars, obfuscate: "
                       ++ showBoolean obfuscate)%string)
           tt ;;
   combinedCalendar <<- quietly (newComponent "vcalendar") ;;
   '(combinedCalendar, totalEvents) <<-
      forEachCalendarLogged obfuscate 0 calendars combinedCalendar 0 ;;
   _ <<- written (log verbose
                    ("Combined calendar created with "
                       ++ showNumber totalEvents ++ " total events")%string)
           tt ;;
   written [] combinedCalendar)%logged.

End CombineLogged.

(** The two lines logged for each source that parses, the sources
    numbered from [index + 1]. *)
Fixpoint calendarLines (index : nat) (trees : list Component) : list string :=
  match trees with
  | [] => []
  | t :: rest =>
      ("Processing calendar " ++ showNumber (index + 1))%string
      :: ("Calendar " ++ showNumber (index + 1) ++ " has "
            ++ showNumber (length (getAllSubcomponents t "vevent"))
            ++ " events")%string
      :: calendarLines (S index) rest
  end.

(** ** A sample deployment *)

Module Deployment.

Definition BUCKET_NAME : option string := Some "calendars".

Definition CALENDAR_URLS : option string :=
  Some "https://a.example/a.ics, https://b.example/b.ics".

(** The two servers answer with the texts of the sample calendars A and
    B; no other host resolves. *)
Definition fetch (url : string) : Completion HttpResponse :=
  if url =? "https://a.example/a.ics"
  then Normal (mkHttpResponse 200 (Normal "A"))
  else if url =? "https://b.example/b.ics"
  then Normal (mkHttpResponse 200 (Normal "B"))
  else Throw (Error "getaddrinfo ENOTFOUND").

Definition firstRejected (rejected : list Exception) : Exception :=
  hd (Error "") rejected.

(** A stand-in for the serializer: the names of the properties, event by
    event. *)
Definition stringify (calendar : Component) : string :=
  String.concat ";"
    (map (fun e => String.concat "," (map pname (properties e)))
       (components calendar)).

Definition putObject (params : PutObjectParams) : Completion unit :=
  Normal tt.

Definition args : Args :=
  mkArgs (JString "combined.ics") (JString "true") JUndefined.

(** The same call with the flag written in capitals. *)
Definition argsCapitals : Args :=
  mkArgs (JString "combined.ics") (JString "TRUE") JUndefined.

Definition run (a : option Args) : IO Response :=
  main BUCKET_NAME CALENDAR_URLS fetch firstRejected Sample.parse stringify
    putObject Sample.store a.

(** What the sample call uploads, with and without obfuscation. *)
Definition uploaded : PutObjectParams :=
  mkPutObjectParams "calendars" (JString "combined.ics")
    "dtstart,uid,summary;dtstart,rrule,summary;uid,summary"
    "text/calendar" "public-read".

Definition uploadedPlain : PutObjectParams :=
  mkPutObjectParams "calendars" (JString "combined.ics")
    "summary,dtstart,location,uid;rrule,dtstart,description;uid,summary"
    "text/calendar" "public-read".

End Deployment.

(** * The run on what the parser hands over

    [ical.parse] checks the syntax of a text and nothing more.  Two calls
    of [combineCalendars] can throw on a text it accepted:
    [calendar.getAllSubcomponents], when what [new ical.Component] wraps
    is not one component, and [event.getFirstPropertyValue], which
    decodes the stored value when it is first asked for.  [Lazy] is the
    loop with these two calls as ical.js has them; the parser and the
    decoder are parameters. *)

(** What [new ical.Component(ical.parse(calendarData))] wraps: the
    component of a text that holds one calendar object; for the empty
    text, or a text with two calendar objects, an array that has nothing
    where a component has its list of subcomponents. *)
Inductive Wrapped : Type :=
| Calendar (calendar : Component)
| NoSubcomponents.

(** What [getAllSubcomponents] throws when it reads the length of a list
    of subcomponents that is not there. *)
Definition lengthOfUndefined : Exception :=
  TypeError "Cannot read properties of undefined (reading 'length')".

Module Lazy.

Section Run.

(** [ical.parse(calendarData)], wrapped by [new ical.Component]. *)
Variable parse : string -> Completion Wrapped.

(** The exception the decoder of ical.js throws on the stored first value
    of a property, when it cannot decode it: a date-time property whose
    text is not a date-time, as in [DTSTART:20240102]. *)
Variable decodeError : Property -> option Exception.

(** [component.getFirstPropertyValue(name)]: the first value of the first
    property of that name is decoded at this call. *)
Definition getFirstPropertyValue (this : Component) (name : string)
  : Completion (option Value) :=
  match getFirstProperty this name with
  | Some prop =>
      match getFirstValue prop with
      | Some value =>
          match decodeError prop with
          | Some e => Throw e
          | None => Normal (Some value)
          end
      | None => Normal None
      end
  | None => Normal None
  end.

(** The statements on [startDate]. *)
Definition normalizeStart (event : Component) : Js Component :=
  startDate <- lift (getFirstPropertyValue event "dtstart") ;;
  if truthy startDate then
    zone <- lift (readZone startDate) ;;
    if isSome zone then ret event
    else ret (assignZone event "dtstart" utcTimezone)
  else ret event.

(** The body of [events.forEach]. *)
Definition processEvent (obfuscate : bool)
  (event calendar combinedCalendar : Component) : Js (Component * Component) :=
  '(event, parent, calendar) <-
     (if obfuscate then
        '(sourceEvent, obfuscatedEvent) <- obfuscateEvent event ;;
        ret (obfuscatedEvent, None, storeSubcomponent calendar sourceEvent)
      else ret (event, Some calendar, calendar)) ;;
  event <- normalizeStart event ;;
  let '(combinedCalendar, parent) :=
    addSubcomponent combinedCalendar event parent in
  ret (orElse parent calendar, combinedCalendar).

Fixpoint forEachEvent (obfuscate : bool) (events : list Component)
  (calendar combinedCalendar : Component) : Js (Component * Component) :=
  match events with
  | [] => ret (calendar, combinedCalendar)
  | event :: rest =>
      '(calendar, combinedCalendar) <-
         processEvent obfuscate event calendar combinedCalendar ;;
      forEachEvent obfuscate rest calendar combinedCalendar
  end.

(** The body of [calendars.forEach]. *)
Definition processCalendar (obfuscate : bool) (calendarData : string)
  (combinedCalendar : Component) : Js (Component * Component) :=
  calendar <- lift (parse calendarData) ;;
  match calendar with
  | NoSubcomponents => lift (Throw lengthOfUndefined)
  | Calendar calendar =>
      let events := getAllSubcomponents calendar "vevent" in
      forEachEvent obfuscate events calendar combinedCalendar
  end.

Fixpoint forEachCalendar (obfuscate : bool) (calendars : list string)
  (combinedCalendar : Component) : Js (list Component * Component) :=
  match calendars with
  | [] => ret ([], combinedCalendar)
  | calendarData :: rest =>
      '(calendar, combinedCalendar) <-
         processCalendar obfuscate calendarData combinedCalendar ;;
      '(others, combinedCalendar) <-
         forEachCalendar obfuscate rest combinedCalendar ;;
      ret (calendar :: others, combinedCalendar)
  end.

Definition combineCalendars (calendars : list string) (obfuscate : bool)
  : Js Component :=
  combinedCalendar <- newComponent "vcalendar" ;;
  '(_, combinedCalendar) <- forEachCalendar obfuscate calendars combinedCalendar ;;
  ret combinedCalendar.

(** The exception the loop throws at an event: that of the decoding of
    its first start, if there is one. *)
Definition startError (event : Component) : option Exception :=
  match getFirstPropertyValue event "dtstart" with
  | Throw e => Some e
  | Normal _ => None
  end.

(** The same for the events of one source, in order. *)
Fixpoint firstStartError (events : list Component) : option Exception :=
  match events with
  | [] => None
  | event :: rest =>
      match startError event with
      | Some e => Some e
      | None => firstStartError rest
      end
  end.

(** One source as the loop gets through it: its calendar, when the text
    parses, is wrapped as a component, and the first start of each of
    its events decodes; the exception it ends the run with otherwise. *)
Definition checked (calendarData : string) : Completion Component :=
  match parse calendarData with
  | Throw e => Throw e
  | Normal NoSubcomponents => Throw lengthOfUndefined
  | Normal (Calendar calendar) =>
      match firstStartError (getAllSubcomponents calendar "vevent") with
      | Some e => Throw e
      | None => Normal calendar
      end
  end.

(** ** With the console output *)

(** [events.forEach] with the counter [totalEvents]. *)
Fixpoint forEachEventCounting (obfuscate : bool) (events : list Component)
  (calendar combinedCalendar : Component) (totalEvents : nat)
  : Js (Component * Component * nat) :=
  match events with
  | [] => ret (calendar, combinedCalendar, totalEvents)
  | event :: rest =>
      '(calendar, combinedCalendar) <-
         processEvent obfuscate event calendar combinedCalendar ;;
      forEachEventCounting obfuscate rest calendar combinedCalendar
        (S totalEvents)
  end.

Variable verbose : bool.

(** The body of [calendars.forEach] with its two log lines. *)
Definition processCalendarLogged (obfuscate : bool) (index : nat)
  (calendarData : string) (combinedCalendar : Component) (totalEvents : nat)
  : Logged (Component * nat) :=
  (_ <<- written (log verbose
                    ("Processing calendar " ++ showNumber (index + 1))%string)
           tt ;;
   calendar <<- quietly (lift (parse calendarData)) ;;
   match calendar with
   | NoSubcomponents => quietly (lift (Throw lengthOfUndefined))
   | Calendar calendar =>
       let events := getAllSubcomponents calendar "vevent" in
       _ <<- written (log verbose
                        ("Calendar " ++ showNumber (index + 1) ++ " has "
                           ++ showNumber (length events) ++ " events")%string)
               tt ;;
       '(_, combinedCalendar, totalEvents) <<-
          quietly (forEachEventCounting obfuscate events calendar
                     combinedCalendar totalEvents) ;;
       written [] (combinedCalendar, totalEvents)
   end)%logged.

Fixpoint forEachCalendarLogged (obfuscate : bool) (index : nat)
  (calendars : list string) (combinedCalendar : Component)
  (totalEvents : nat) : Logged (Component * nat) :=
  match calendars with
  | [] => written [] (combinedCalendar, totalEvents)
  | calendarData :: rest =>
      ('(combinedCalendar, totalEvents) <<-
          processCalendarLogged obfuscate index calendarData
            combinedCalendar totalEvents ;;
       forEachCalendarLogged obfuscate (S index) rest combinedCalendar
         totalEvents)%logged
  end.

(** [combineCalendars] with everything it logs. *)
Definition combineCalendarsLogged (calendars : list string)
  (obfuscate : bool) : Logged Component :=
  (_ <<- written (log verbose
                    ("Combining " ++ showNumber (length calendars)
                       ++ " calendars, obfuscate: "
                       ++ showBoolean obfuscate)%string)
           tt ;;
   combinedCalendar <<- quietly (newComponent "vcalendar") ;;
   '(combinedCalendar, totalEvents) <<-
      forEachCalendarLogged obfuscate 0 calendars combinedCalendar 0 ;;
   _ <<- written (log verbose
                    ("Combined calendar created with "
                       ++ showNumber totalEvents ++ " total events")%string)
           tt ;;
   written [] combinedCalendar)%logged.

End Run.

End Lazy.

(** ** Sources the parser accepts *)

Module Accepted.

(** One event whose start is written as a date in a date-time property,
    [DTSTART:20240102]: the stored text is not a date-time. *)
Definition dateOnly : Component :=
  mkComponent 41 "vevent"
    [mkProperty 42 "uid" [] [VString "e@example.org"];
     mkProperty 43 "dtstart" [] [VString "2024-01-02"]] [].

(** One event at noon UTC. *)
Definition lunch : Component :=
  mkComponent 44 "vevent"
    [mkProperty 45 "dtstart" []
       [VTime "2024-01-03T12:00:00" (Some utcTimezone)];
     mkProperty 46 "summary" [] [VString "Lunch"]] [].

Definition calendarE : Component :=
  mkComponent 40 "vcalendar" [] [lunch; dateOnly].

(** The parser accepts the empty text, which holds no calendar object,
    and the text E; the other texts are those of [Sample.parse]. *)
Definition parse (calendarData : string) : Completion Wrapped :=
  if calendarData =? "" then Normal NoSubcomponents
  else if calendarData =? "E" then Normal (Calendar calendarE)
  else match Sample.parse calendarData with
       | Normal calendar => Normal (Calendar calendar)
       | Throw e => Throw e
       end.

(** A date-time has nineteen characters, [2024-01-02T09:00:00]; a start
    that is still its stored text and is shorter does not decode. *)
Definition decodeError (prop : Property) : option Exception :=
  match pvalues prop with
  | VString stored :: _ =>
      if (pname prop =? "dtstart") && (String.length stored <? 19)%nat
      then Some (Error "invalid date-time value")
      else None
  | _ => None
  end.

End Accepted.

(** * Lemmas on the loops *)

Lemma copyEssentialProps_spec :
  forall propNames event obfuscatedEvent st,
    copyEssentialProps propNames event obfuscatedEvent st =
    Normal ((leftover propNames event,
             withProperties obfuscatedEvent
               (properties obfuscatedEvent ++ copied propNames event)), st).
Proof.
  induction propNames as [|n rest IH]; intros e o st; simpl.
  - unfold ret, withProperties. rewrite app_nil_r. now destruct o.
  - destruct (getFirstProperty e n) as [p|]; simpl.
    + unfold bind, lift. simpl. rewrite IH. simpl.
      unfold withProperties. simpl. now rewrite <- app_assoc.
    + apply IH.
Qed.

Lemma copied_names :
  forall propNames event p,
    In p (copied propNames event) -> In (pname p) propNames.
Proof.
  induction propNames as [|n rest IH]; intros e p; simpl; [tauto|].
  destruct (getFirstProperty e n) as [q|] eqn:E.
  - intros [<-|H].
    + left. apply find_some in E. destruct E as [_ E].
      apply String.eqb_eq in E. now symmetry.
    + right. eapply IH, H.
  - intros H. right. eapply IH, H.
Qed.

Lemma find_none_names :
  forall (ps : list Property) name,
    ~ In name (map pname ps) ->
    find (fun p => pname p =? name) ps = None.
Proof.
  induction ps as [|p ps IH]; intros name H; simpl; [reflexivity|].
  destruct (pname p =? name) eqn:E.
  - apply String.eqb_eq in E. exfalso. apply H. now left.
  - apply IH. intros H'. apply H. now right.
Qed.

Lemma copied_no_summary :
  forall event,
    find (fun p => pname p =? "summary") (copied essentialProps event) = None.
Proof.
  intros e. apply find_none_names. intros H.
  apply in_map_iff in H. destruct H as [p [Hn Hp]].
  apply copied_names in Hp. rewrite Hn in Hp.
  simpl in Hp. intuition discriminate.
Qed.

Lemma obfuscateEvent_spec :
  forall event st,
    obfuscateEvent event st =
    Normal ((leftover essentialProps event, redactedAs (nextId st) event),
            mkStore (S (S (nextId st)))).
Proof.
  intros e st. unfold obfuscateEvent, newComponent, fresh, bind, ret.
  rewrite copyEssentialProps_spec.
  unfold updatePropertyWithValue, getFirstProperty, withProperties.
  cbn [properties app cid cname components].
  rewrite copied_no_summary.
  unfold addPropertyWithValue, newProperty, fresh, bind, ret, lift. simpl.
  reflexivity.
Qed.

Lemma normalizeStart_spec :
  forall event st, normalizeStart event st = Normal (zoned event, st).
Proof.
  intros e st. unfold normalizeStart, zoned.
  destruct (getFirstPropertyValue e "dtstart") as [[t [z|]|s]|]; simpl;
    try reflexivity.
  destruct (s =? ""); reflexivity.
Qed.

Lemma processEvent_spec :
  forall obfuscate event calendar combinedCalendar st,
    processEvent obfuscate event calendar combinedCalendar st =
    Normal
      ((if obfuscate
        then storeSubcomponent calendar (leftover essentialProps event)
        else removeSubcomponent calendar (zoned event),
        withComponents combinedCalendar
          (components combinedCalendar
             ++ [perEvent obfuscate (nextId st) event])),
       mkStore (afterEvent obfuscate (nextId st))).
Proof.
  intros [|] e cal comb [n]; unfold processEvent, perEvent, afterEvent.
  - unfold bind at 1. unfold bind at 1. rewrite obfuscateEvent_spec.
    unfold ret at 1. unfold bind. rewrite normalizeStart_spec. reflexivity.
  - unfold bind at 1. unfold ret at 1. unfold bind.
    rewrite normalizeStart_spec. reflexivity.
Qed.

Lemma forEachEvent_spec :
  forall obfuscate events calendar combinedCalendar st,
    forEachEvent obfuscate events calendar combinedCalendar st =
    Normal
      ((sourceAfter obfuscate events calendar,
        withComponents combinedCalendar
          (components combinedCalendar
             ++ appended obfuscate (nextId st) events)),
       mkStore (afterEvents obfuscate (nextId st) events)).
Proof.
  intros ob events. induction events as [|e rest IH]; intros cal comb [n].
  - simpl. unfold ret, withComponents. rewrite app_nil_r. now destruct comb.
  - simpl. unfold bind. rewrite processEvent_spec. rewrite IH. simpl.
    unfold withComponents. simpl. now rewrite <- app_assoc.
Qed.

Lemma appended_app :
  forall obfuscate l1 l2 id,
    appended obfuscate id (l1 ++ l2) =
    appended obfuscate id l1
      ++ appended obfuscate (afterEvents obfuscate id l1) l2.
Proof.
  intros ob l1. induction l1 as [|e l1 IH]; intros l2 id; simpl.
  - reflexivity.
  - now rewrite IH.
Qed.

Lemma afterEvents_app :
  forall obfuscate l1 l2 id,
    afterEvents obfuscate id (l1 ++ l2) =
    afterEvents obfuscate (afterEvents obfuscate id l1) l2.
Proof.
  intros ob l1. induction l1 as [|e l1 IH]; intros l2 id; simpl.
  - reflexivity.
  - now rewrite IH.
Qed.

Lemma appended_length :
  forall obfuscate events id,
    length (appended obfuscate id events) = length events.
Proof.
  intros ob events. induction events as [|e rest IH]; intros id; simpl.
  - reflexivity.
  - now rewrite IH.
Qed.

(** Each appended event is what one iteration makes of the source event
    at the same position. *)
Lemma appended_Forall2 :
  forall obfuscate events id,
    Forall2 (fun e a => exists i, a = perEvent obfuscate i e)
      events (appended obfuscate id events).
Proof.
  intros ob events. induction events as [|e rest IH]; intros id; simpl.
  - constructor.
  - constructor; [now exists id | apply IH].
Qed.

Section CombineLemmas.

Variable parse : string -> Completion Component.

Lemma processCalendar_spec :
  forall obfuscate calendarData calendar combinedCalendar st,
    parse calendarData = Normal calendar ->
    processCalendar parse obfuscate calendarData combinedCalendar st =
    Normal
      ((sourceAfter obfuscate (vevents calendar) calendar,
        withComponents combinedCalendar
          (components combinedCalendar
             ++ appended obfuscate (nextId st) (vevents calendar))),
       mkStore (afterEvents obfuscate (nextId st) (vevents calendar))).
Proof.
  intros ob s cal comb st H. unfold processCalendar, bind, lift.
  rewrite H. apply forEachEvent_spec.
Qed.

Lemma parseAll_cons :
  forall calendarData rest trees,
    parseAll parse (calendarData :: rest) = Normal trees ->
    exists t ts,
      trees = t :: ts /\ parse calendarData = Normal t
      /\ parseAll parse rest = Normal ts.
Proof.
  intros s rest trees. simpl.
  destruct (parse s) as [t|e]; [|discriminate].
  destruct (parseAll parse rest) as [ts|e]; [|discriminate].
  intros H. injection H as <-. now exists t, ts.
Qed.

Lemma forEachCalendar_spec :
  forall obfuscate calendars trees combinedCalendar st,
    parseAll parse calendars = Normal trees ->
    forEachCalendar parse obfuscate calendars combinedCalendar st =
    Normal
      ((map (fun t => sourceAfter obfuscate (vevents t) t) trees,
        withComponents combinedCalendar
          (components combinedCalendar
             ++ appended obfuscate (nextId st) (flat_map vevents trees))),
       mkStore (afterEvents obfuscate (nextId st)
                  (flat_map vevents trees))).
Proof.
  intros ob calendars.
  induction calendars as [|s rest IH]; intros trees comb [n] H.
  - simpl in H. injection H as <-. simpl.
    unfold ret, withComponents. rewrite app_nil_r. now destruct comb.
  - apply parseAll_cons in H. destruct H as [t [ts [-> [Ht Hts]]]].
    simpl. unfold bind at 1.
    rewrite (processCalendar_spec ob s t comb _ Ht).
    unfold bind at 1. rewrite (IH ts _ _ Hts). unfold ret. simpl.
    unfold withComponents. simpl.
    now rewrite appended_app, afterEvents_app, <- app_assoc.
Qed.

(** The whole run, for sources that parse. *)
Lemma combineCalendarsAndSources_spec :
  forall obfuscate calendars trees st,
    parseAll parse calendars = Normal trees ->
    combineCalendarsAndSources parse calendars obfuscate st =
    Normal
      ((map (fun t => sourceAfter obfuscate (vevents t) t) trees,
        mkComponent (nextId st) "vcalendar" []
          (appended obfuscate (S (nextId st)) (flat_map vevents trees))),
       mkStore (afterEvents obfuscate (S (nextId st))
                  (flat_map vevents trees))).
Proof.
  intros ob calendars trees st H.
  unfold combineCalendarsAndSources, newComponent, fresh, bind, ret.
  now rewrite (forEachCalendar_spec ob calendars trees _ _ H).
Qed.

Lemma combineCalendars_spec :
  forall obfuscate calendars trees st,
    parseAll parse calendars = Normal trees ->
    combineCalendars parse calendars obfuscate st =
    Normal
      (mkComponent (nextId st) "vcalendar" []
         (appended obfuscate (S (nextId st)) (flat_map vevents trees)),
       mkStore (afterEvents obfuscate (S (nextId st))
                  (flat_map vevents trees))).
Proof.
  intros ob calendars trees st H. unfold combineCalendars, bind.
  now rewrite (combineCalendarsAndSources_spec ob calendars trees st H).
Qed.

(** A source the loop does not get through stops the run with its
    exception. *)
Lemma forEachCalendar_throws :
  forall obfuscate calendars e combinedCalendar st,
    parseAll parse calendars = Throw e ->
    forEachCalendar parse obfuscate calendars combinedCalendar st = Throw e.
Proof.
  intros ob calendars. induction calendars as [|s rest IH];
    intros e comb st H; [discriminate|].
  simpl in H. simpl. unfold bind at 1.
  destruct (parse s) as [t|e1] eqn:Ht.
  - rewrite (processCalendar_spec ob s t comb st Ht).
    destruct (parseAll parse rest) as [ts|e2] eqn:Hts; [discriminate|].
    injection H as <-. unfold bind at 1. now rewrite (IH e2).
  - injection H as <-. unfold processCalendar, bind, lift. now rewrite Ht.
Qed.

(** The only exception a run can end with is that of a source. *)
Lemma combineCalendars_throws :
  forall obfuscate calendars st e,
    combineCalendars parse calendars obfuscate st = Throw e ->
    parseAll parse calendars = Throw e.
Proof.
  intros ob calendars st e H.
  destruct (parseAll parse calendars) as [trees|e0] eqn:E.
  - rewrite (combineCalendars_spec ob calendars trees st E) in H.
    discriminate.
  - unfold combineCalendars, combineCalendarsAndSources, newComponent,
      fresh in H.
    unfold bind at 1 in H. unfold bind at 1 in H. unfold bind at 1 in H.
    unfold ret at 1 in H.
    rewrite (forEachCalendar_throws ob calendars e0 _ _ E) in H.
    congruence.
Qed.

End CombineLemmas.

(** ** Facts on single events *)

Lemma onFirst_names :
  forall test (f : Property -> Property) ps,
    (forall p, pname (f p) = pname p) ->
    map pname (onFirst test f ps) = map pname ps.
Proof.
  intros test f ps Hf. induction ps as [|p ps IH]; simpl; [reflexivity|].
  destruct (test p); simpl; [now rewrite Hf | now rewrite IH].
Qed.

Lemma onFirst_ids :
  forall test (f : Property -> Property) ps,
    (forall p, pid (f p) = pid p) ->
    map pid (onFirst test f ps) = map pid ps.
Proof.
  intros test f ps Hf. induction ps as [|p ps IH]; simpl; [reflexivity|].
  destruct (test p); simpl; [now rewrite Hf | now rewrite IH].
Qed.

Lemma zoned_cname : forall c, cname (zoned c) = cname c.
Proof. intros c. unfold zoned. now destruct (_ && _). Qed.

Lemma zoned_cid : forall c, cid (zoned c) = cid c.
Proof. intros c. unfold zoned. now destruct (_ && _). Qed.

Lemma zoned_components : forall c, components (zoned c) = components c.
Proof. intros c. unfold zoned. now destruct (_ && _). Qed.

Lemma zoned_names :
  forall c, map pname (properties (zoned c)) = map pname (properties c).
Proof.
  intros c. unfold zoned. destruct (_ && _); [|reflexivity].
  simpl. now apply onFirst_names.
Qed.

Lemma zoned_ids :
  forall c, map pid (properties (zoned c)) = map pid (properties c).
Proof.
  intros c. unfold zoned. destruct (_ && _); [|reflexivity].
  simpl. now apply onFirst_ids.
Qed.

Lemma zoned_without_start :
  forall c, getFirstProperty c "dtstart" = None -> zoned c = c.
Proof.
  intros c H. unfold zoned, getFirstPropertyValue. now rewrite H.
Qed.

Lemma perEvent_cname :
  forall obfuscate id e,
    cname e = "vevent" -> cname (perEvent obfuscate id e) = "vevent".
Proof.
  intros [|] id e H; unfold perEvent; rewrite zoned_cname; [reflexivity|exact H].
Qed.

Lemma vevents_cname : forall t e, In e (vevents t) -> cname e = "vevent".
Proof.
  intros t e H. apply filter_In in H. destruct H as [_ H].
  now apply String.eqb_eq in H.
Qed.

Lemma appended_cname :
  forall obfuscate events id,
    (forall e, In e events -> cname e = "vevent") ->
    forall a, In a (appended obfuscate id events) -> cname a = "vevent".
Proof.
  intros ob events. induction events as [|e rest IH]; intros id H a; simpl.
  - tauto.
  - intros [<-|Ha].
    + apply perEvent_cname, H. now left.
    + eapply IH; [|exact Ha]. intros e' He'. apply H. now right.
Qed.

Lemma flat_map_vevents_cname :
  forall trees e, In e (flat_map vevents trees) -> cname e = "vevent".
Proof.
  intros trees e H. apply in_flat_map in H. destruct H as [t [_ H]].
  eapply vevents_cname, H.
Qed.

Lemma filter_all :
  forall {A} (f : A -> bool) l, (forall x, In x l -> f x = true) -> filter f l = l.
Proof.
  intros A f l. induction l as [|x l IH]; intros H; simpl; [reflexivity|].
  rewrite (H x (or_introl eq_refl)). f_equal. apply IH.
  intros y Hy. apply H. now right.
Qed.

Lemma flat_map_length_sum :
  forall {A B} (f : A -> list B) l,
    length (flat_map f l) = list_sum (map (fun x => length (f x)) l).
Proof.
  intros A B f l. induction l as [|x l IH]; simpl; [reflexivity|].
  now rewrite length_app, IH.
Qed.

Lemma appended_related :
  forall (P : Component -> Component -> Prop) obfuscate events id,
    (forall e i, In e events -> P e (perEvent obfuscate i e)) ->
    Forall2 P events (appended obfuscate id events).
Proof.
  intros P ob events. induction events as [|e rest IH]; intros id H; simpl.
  - constructor.
  - constructor; [apply H; now left|].
    apply IH. intros e' i He'. apply H. now right.
Qed.

(** ** Identities and removal *)

Lemma distinct_NoDup : forall l, distinct l = true -> NoDup l.
Proof.
  induction l as [|i l IH]; simpl; intros H; constructor.
  - apply andb_prop in H. destruct H as [H _].
    intros Hin. apply negb_true_iff in H.
    assert (existsb (Nat.eqb i) l = true) as E.
    { apply existsb_exists. exists i. split; [exact Hin|apply Nat.eqb_refl]. }
    congruence.
  - apply IH. apply andb_prop in H. tauto.
Qed.

Lemma removeObject_subset :
  forall {A} (ident : A -> ObjId) i l x,
    In x (removeObject ident i l) -> In x l.
Proof.
  intros A ident i l. induction l as [|y l IH]; intros x; simpl; [tauto|].
  destruct (ident y =? i)%nat; simpl; [tauto|].
  intros [->|H]; [now left | right; now apply IH].
Qed.

Lemma removeObject_NoDup :
  forall {A} (ident : A -> ObjId) i l,
    NoDup (map ident l) -> NoDup (map ident (removeObject ident i l)).
Proof.
  intros A ident i l. induction l as [|y l IH]; simpl; intros H; [constructor|].
  inversion H as [|? ? Hy Hl]; subst.
  destruct (ident y =? i)%nat; simpl; [exact Hl|].
  constructor; [|now apply IH].
  intros Hin. apply Hy. apply in_map_iff in Hin.
  destruct Hin as [z [Hz Hin]]. apply in_map_iff. exists z.
  split; [exact Hz|]. eapply removeObject_subset, Hin.
Qed.

(** Taking out the first property of one name leaves the first property
    of every other name where it was. *)
Lemma find_after_remove :
  forall ps p n m,
    NoDup (map pid ps) ->
    find (fun q => pname q =? n) ps = Some p ->
    m <> n ->
    find (fun q => pname q =? m) (removeObject pid (pid p) ps)
    = find (fun q => pname q =? m) ps.
Proof.
  induction ps as [|x ps IH]; intros p n m Hnd Hf Hm; simpl in *;
    [discriminate|].
  inversion Hnd as [|? ? Hx Hps]; subst.
  destruct (pname x =? n) eqn:En.
  - injection Hf as <-. rewrite Nat.eqb_refl.
    apply String.eqb_eq in En. subst n.
    destruct (pname x =? m) eqn:Em; [|reflexivity].
    apply String.eqb_eq in Em. congruence.
  - destruct (pid x =? pid p)%nat eqn:Ei.
    + exfalso. apply Nat.eqb_eq in Ei. apply Hx. rewrite Ei.
      apply in_map. apply find_some in Hf. tauto.
    + simpl. destruct (pname x =? m); [reflexivity|].
      eapply IH; eassumption.
Qed.

Lemma flat_map_agree :
  forall {A B} (f g : A -> list B) l,
    (forall x, In x l -> f x = g x) -> flat_map f l = flat_map g l.
Proof.
  intros A B f g l. induction l as [|x l IH]; intros H; simpl; [reflexivity|].
  rewrite (H x (or_introl eq_refl)). f_equal. apply IH.
  intros y Hy. apply H. now right.
Qed.

Lemma firstProperties_after_remove :
  forall names e p n,
    NoDup (map pid (properties e)) ->
    getFirstProperty e n = Some p ->
    ~ In n names ->
    firstProperties names (removeProperty e p) = firstProperties names e.
Proof.
  intros names e p n Hnd Hf Hn. unfold firstProperties.
  apply flat_map_agree. intros m Hm.
  unfold getFirstProperty, removeProperty. cbn [properties withProperties].
  rewrite (find_after_remove (properties e) p n m Hnd Hf); [reflexivity|].
  intros ->. contradiction.
Qed.

(** With distinct identities, what [copyEssentialProps] moves is the
    first property of each name. *)
Lemma copied_first :
  forall names e,
    NoDup names ->
    NoDup (map pid (properties e)) ->
    copied names e = firstProperties names e.
Proof.
  induction names as [|n rest IH]; intros e Hn Hnd; simpl; [reflexivity|].
  inversion Hn as [|? ? Hn1 Hn2]; subst.
  destruct (getFirstProperty e n) as [p|] eqn:Hf.
  - simpl. f_equal. rewrite IH.
    + eapply firstProperties_after_remove; eassumption.
    + exact Hn2.
    + unfold removeProperty. cbn [properties withProperties].
      now apply removeObject_NoDup.
  - simpl. now apply IH.
Qed.

Lemma copied_subset :
  forall names e p, In p (copied names e) -> In p (properties e).
Proof.
  induction names as [|n rest IH]; intros e p; simpl; [tauto|].
  destruct (getFirstProperty e n) as [q|] eqn:Hf.
  - intros [<-|H].
    + apply find_some in Hf. tauto.
    + apply IH in H. unfold removeProperty in H.
      cbn [properties withProperties] in H.
      eapply removeObject_subset, H.
  - apply IH.
Qed.

Lemma essentialProps_NoDup : NoDup essentialProps.
Proof.
  unfold essentialProps.
  repeat (constructor; [simpl; intuition discriminate|]). constructor.
Qed.

Lemma firstProperties_names :
  forall names e,
    map pname (firstProperties names e)
    = filter (fun n => isSome (getFirstProperty e n)) names.
Proof.
  induction names as [|n rest IH]; intros e; simpl; [reflexivity|].
  destruct (getFirstProperty e n) as [p|] eqn:Hf; simpl.
  - f_equal; [|apply IH]. apply find_some in Hf. destruct Hf as [_ Hf].
    now apply String.eqb_eq in Hf.
  - apply IH.
Qed.

(** ** Facts on [zoned] *)

Lemma onFirst_In :
  forall {A} (test : A -> bool) f l x,
    In x (onFirst test f l) ->
    In x l \/ exists y, In y l /\ test y = true /\ x = f y.
Proof.
  intros A test f l. induction l as [|y l IH]; intros x; simpl; [tauto|].
  destruct (test y) eqn:E; simpl.
  - intros [<-|H]; [right; exists y; tauto | left; tauto].
  - intros [<-|H]; [left; tauto|].
    destruct (IH x H) as [H'|[z [Hz [Ht Hx]]]]; [left; tauto|].
    right. exists z. tauto.
Qed.

Lemma find_onFirst :
  forall (f : Property -> Property) name ps,
    (forall p, pname (f p) = pname p) ->
    find (fun p => pname p =? name) (onFirst (fun p => pname p =? name) f ps)
    = option_map f (find (fun p => pname p =? name) ps).
Proof.
  intros f name ps Hf. induction ps as [|p ps IH]; simpl; [reflexivity|].
  destruct (pname p =? name) eqn:E; simpl.
  - now rewrite Hf, E.
  - now rewrite E, IH.
Qed.

Lemma getFirstValue_onFirstValue :
  forall f p,
    getFirstValue (onFirstValue f p) = option_map f (getFirstValue p).
Proof.
  intros f p. unfold getFirstValue, onFirstValue. simpl.
  now destruct (pvalues p).
Qed.

Lemma assignZone_first_value :
  forall c name z,
    getFirstPropertyValue (assignZone c name z) name
    = option_map (writeZone z) (getFirstPropertyValue c name).
Proof.
  intros c name z. unfold getFirstPropertyValue, getFirstProperty, assignZone.
  cbn [properties withProperties].
  rewrite find_onFirst by reflexivity.
  destruct (find _ (properties c)) as [p|]; simpl; [|reflexivity].
  apply getFirstValue_onFirstValue.
Qed.

Lemma zoned_first_start :
  forall c,
    getFirstPropertyValue (zoned c) "dtstart"
    = match getFirstPropertyValue c "dtstart" with
      | Some (VTime t None) => Some (VTime t (Some utcTimezone))
      | v => v
      end.
Proof.
  intros c. unfold zoned.
  destruct (getFirstPropertyValue c "dtstart") as [[t [z|]|s]|] eqn:E;
    cbn [truthy hasZone andb negb]; try exact E.
  - now rewrite assignZone_first_value, E.
  - destruct (negb (s =? "")); [|exact E]. cbn [andb].
    now rewrite assignZone_first_value, E.
Qed.

Lemma zoned_first_start_id :
  forall c,
    option_map pid (getFirstProperty (zoned c) "dtstart")
    = option_map pid (getFirstProperty c "dtstart").
Proof.
  intros c. unfold zoned. destruct (_ && _); [|reflexivity].
  unfold getFirstProperty, assignZone. cbn [properties withProperties].
  rewrite find_onFirst by reflexivity.
  now destruct (find _ (properties c)).
Qed.

Lemma zoned_keeps_zone :
  forall c t z,
    getFirstPropertyValue c "dtstart" = Some (VTime t (Some z)) ->
    zoned c = c.
Proof.
  intros c t z H. unfold zoned. now rewrite H.
Qed.

Lemma zoned_other_properties :
  forall c p,
    In p (properties (zoned c)) -> pname p <> "dtstart" ->
    In p (properties c).
Proof.
  intros c p. unfold zoned. destruct (_ && _); [|tauto].
  unfold assignZone. cbn [properties withProperties]. intros H Hn.
  apply onFirst_In in H. destruct H as [H|[q [_ [Hq ->]]]]; [exact H|].
  exfalso. apply Hn. apply String.eqb_eq in Hq. exact Hq.
Qed.

Lemma zoned_start_has_zone :
  forall c t z,
    getFirstPropertyValue (zoned c) "dtstart" = Some (VTime t z) ->
    z <> None.
Proof.
  intros c t z. rewrite zoned_first_start.
  destruct (getFirstPropertyValue c "dtstart") as [[t' [z'|]|s]|];
    intros H; try discriminate; injection H as _ <-; discriminate.
Qed.

(** ** Facts on the redacted event *)

Lemma copied_names_NoDup :
  forall names e, NoDup names -> NoDup (map pname (copied names e)).
Proof.
  induction names as [|n rest IH]; intros e Hn; simpl; [constructor|].
  inversion Hn as [|? ? Hn1 Hn2]; subst.
  destruct (getFirstProperty e n) as [p|] eqn:Hf; [|now apply IH].
  simpl. constructor; [|now apply IH].
  apply find_some in Hf. destruct Hf as [_ Hf].
  apply String.eqb_eq in Hf. rewrite Hf.
  intros Hin. apply in_map_iff in Hin. destruct Hin as [q [Hq Hin]].
  apply copied_names in Hin. congruence.
Qed.

Lemma NoDup_snoc :
  forall {A} (l : list A) x, NoDup l -> ~ In x l -> NoDup (l ++ [x]).
Proof.
  intros A l x. induction l as [|y l IH]; simpl; intros H Hx.
  - constructor; [tauto|constructor].
  - inversion H as [|? ? Hy Hl]; subst. constructor.
    + rewrite in_app_iff. simpl. intuition.
    + apply IH; [exact Hl|tauto].
Qed.

(** The properties of a redacted event have pairwise distinct names. *)
Lemma redacted_names_NoDup :
  forall id e, NoDup (map pname (properties (redactedAs id e))).
Proof.
  intros id e. unfold redactedAs. cbn [properties].
  rewrite map_app. apply NoDup_snoc.
  - apply copied_names_NoDup, essentialProps_NoDup.
  - intros Hin. apply in_map_iff in Hin. destruct Hin as [q [Hq Hin]].
    apply copied_names in Hin. change (pname (busySummary (S id))) with "summary" in Hq.
    rewrite Hq in Hin. simpl in Hin. intuition discriminate.
Qed.

Lemma find_unique_name :
  forall ps p,
    NoDup (map pname ps) -> In p ps ->
    find (fun q => pname q =? pname p) ps = Some p.
Proof.
  induction ps as [|x ps IH]; intros p Hnd Hin; simpl in *; [tauto|].
  inversion Hnd as [|? ? Hx Hps]; subst.
  destruct Hin as [->|Hin].
  - now rewrite String.eqb_refl.
  - destruct (pname x =? pname p) eqn:E.
    + exfalso. apply String.eqb_eq in E. apply Hx. rewrite E.
      now apply in_map.
    + now apply IH.
Qed.

Lemma find_app_none :
  forall (ps tail : list Property) n,
    ~ In n (map pname ps) ->
    find (fun p => pname p =? n) (ps ++ tail)
    = find (fun p => pname p =? n) tail.
Proof.
  induction ps as [|q ps IH]; intros tail n H; simpl; [reflexivity|].
  destruct (pname q =? n) eqn:E.
  - exfalso. apply H. left. now apply String.eqb_eq.
  - apply IH. intros Hin. apply H. now right.
Qed.

Lemma find_copied_head :
  forall n rest e tail,
    ~ In n rest ->
    find (fun p => pname p =? n) (copied (n :: rest) e ++ tail)
    = match getFirstProperty e n with
      | Some p => Some p
      | None => find (fun p => pname p =? n) tail
      end.
Proof.
  intros n rest e tail Hn. cbn [copied].
  destruct (getFirstProperty e n) as [p|] eqn:Hf.
  - simpl. apply find_some in Hf. destruct Hf as [_ Hf]. now rewrite Hf.
  - apply find_app_none. intros Hin. apply in_map_iff in Hin.
    destruct Hin as [q [Hq Hin]]. apply copied_names in Hin. congruence.
Qed.

(** The first start of the redacted event is the first start of the
    source event. *)
Lemma redacted_first_start :
  forall id e,
    getFirstProperty (redactedAs id e) "dtstart"
    = getFirstProperty e "dtstart".
Proof.
  intros id e. unfold redactedAs, getFirstProperty at 1. cbn [properties].
  unfold essentialProps. rewrite find_copied_head.
  - now destruct (getFirstProperty e "dtstart").
  - simpl. intuition discriminate.
Qed.

Lemma redacted_first_start_value :
  forall id e,
    getFirstPropertyValue (redactedAs id e) "dtstart"
    = getFirstPropertyValue e "dtstart".
Proof.
  intros id e. unfold getFirstPropertyValue. now rewrite redacted_first_start.
Qed.

Lemma redacted_properties :
  forall id e p,
    In p (properties (redactedAs id e)) ->
    p = busySummary (S id)
    \/ (In p (properties e) /\ In (pname p) essentialProps).
Proof.
  intros id e p. unfold redactedAs. cbn [properties]. rewrite in_app_iff.
  cbn [In]. intros [H|[<-|[]]]; [right|now left].
  split; [eapply copied_subset, H | eapply copied_names, H].
Qed.

Lemma perEvent_first_start_id :
  forall obfuscate id e,
    option_map pid (getFirstProperty (perEvent obfuscate id e) "dtstart")
    = option_map pid (getFirstProperty e "dtstart").
Proof.
  intros [|] id e; unfold perEvent; rewrite zoned_first_start_id;
    [now rewrite redacted_first_start | reflexivity].
Qed.

Lemma perEvent_first_start :
  forall obfuscate id e,
    getFirstPropertyValue (perEvent obfuscate id e) "dtstart"
    = match getFirstPropertyValue e "dtstart" with
      | Some (VTime t None) => Some (VTime t (Some utcTimezone))
      | v => v
      end.
Proof.
  intros [|] id e; unfold perEvent; rewrite zoned_first_start;
    [now rewrite redacted_first_start_value | reflexivity].
Qed.

Lemma redacted_contents :
  forall id e,
    NoDup (map pid (properties e)) ->
    perEvent true id e
    = zoned (mkComponent id "vevent"
               (firstProperties essentialProps e ++ [busySummary (S id)]) [])
    /\ map pname (properties (perEvent true id e))
       = filter (fun n => isSome (getFirstProperty e n)) essentialProps
           ++ ["summary"]
    /\ components (perEvent true id e) = []
    /\ (forall p, In p (properties (perEvent true id e)) ->
                  pname p = "summary" -> p = busySummary (S id)).
Proof.
  intros id e Hnd. unfold perEvent, redactedAs.
  rewrite (copied_first _ _ essentialProps_NoDup Hnd).
  split; [reflexivity|]. split; [|split].
  - rewrite zoned_names. cbn [properties]. rewrite map_app.
    now rewrite firstProperties_names.
  - now rewrite zoned_components.
  - intros p Hin Hs.
    apply zoned_other_properties in Hin; [|rewrite Hs; discriminate].
    cbn [properties] in Hin. apply in_app_iff in Hin.
    destruct Hin as [Hin|[<-|[]]]; [|reflexivity].
    exfalso. assert (In (pname p) (map pname (firstProperties essentialProps e)))
      as Hm by now apply in_map.
    rewrite firstProperties_names in Hm. apply filter_In in Hm.
    destruct Hm as [Hm _]. rewrite Hs in Hm. simpl in Hm.
    intuition discriminate.
Qed.

Lemma Forall2_left_in :
  forall {A B} (P : A -> B -> Prop) l l',
    Forall2 P l l' -> forall x, In x l -> exists y, In y l' /\ P x y.
Proof.
  intros A B P l l' H. induction H as [|x y l l' Hxy H IH]; intros z; simpl.
  - tauto.
  - intros [<-|Hz]; [exists y; tauto|].
    destruct (IH z Hz) as [w [Hw Hp]]. exists w. tauto.
Qed.

Lemma Forall2_right_in :
  forall {A B} (P : A -> B -> Prop) l l',
    Forall2 P l l' -> forall y, In y l' -> exists x, In x l /\ P x y.
Proof.
  intros A B P l l' H. induction H as [|x y l l' Hxy H IH]; intros z; simpl.
  - tauto.
  - intros [<-|Hz]; [exists x; tauto|].
    destruct (IH z Hz) as [w [Hw Hp]]. exists w. tauto.
Qed.

(** ** Redacting a redacted event *)

Lemma zoned_properties :
  forall c, properties (zoned c) = zonedProperties (properties c).
Proof.
  intros c. unfold zoned, zonedProperties, getFirstPropertyValue,
    getFirstProperty.
  now destruct (_ && _).
Qed.

Lemma onFirst_snoc :
  forall {A} (test : A -> bool) f l x,
    test x = false -> onFirst test f (l ++ [x]) = onFirst test f l ++ [x].
Proof.
  intros A test f l x Hx. induction l as [|y l IH]; simpl.
  - now rewrite Hx.
  - destruct (test y); [reflexivity|]. now rewrite IH.
Qed.

Lemma find_snoc :
  forall {A} (test : A -> bool) l x,
    test x = false -> find test (l ++ [x]) = find test l.
Proof.
  intros A test l x Hx. induction l as [|y l IH]; simpl.
  - now rewrite Hx.
  - destruct (test y); [reflexivity|]. exact IH.
Qed.

Lemma zonedProperties_snoc :
  forall ps s,
    (pname s =? "dtstart") = false ->
    zonedProperties (ps ++ [s]) = zonedProperties ps ++ [s].
Proof.
  intros ps s Hs. unfold zonedProperties.
  rewrite find_snoc by exact Hs.
  destruct (_ && _); [|reflexivity].
  now apply onFirst_snoc.
Qed.

Lemma onFirst_twice :
  forall {A} (test : A -> bool) f l,
    (forall x, test (f x) = test x) -> (forall x, f (f x) = f x) ->
    onFirst test f (onFirst test f l) = onFirst test f l.
Proof.
  intros A test f l Ht Hf. induction l as [|y l IH]; simpl; [reflexivity|].
  destruct (test y) eqn:E; simpl.
  - now rewrite Ht, E, Hf.
  - now rewrite E, IH.
Qed.

Lemma writeZone_twice :
  forall z v, writeZone z (writeZone z v) = writeZone z v.
Proof. intros z [t o|s]; reflexivity. Qed.

Lemma onFirstValue_writeZone_twice :
  forall z p,
    onFirstValue (writeZone z) (onFirstValue (writeZone z) p)
    = onFirstValue (writeZone z) p.
Proof.
  intros z p. unfold onFirstValue, withValues. simpl.
  destruct (pvalues p) as [|v vs]; [reflexivity|].
  now rewrite writeZone_twice.
Qed.

Lemma zonedProperties_twice :
  forall ps, zonedProperties (zonedProperties ps) = zonedProperties ps.
Proof.
  intros ps. unfold zonedProperties at 2.
  destruct (find (fun p => pname p =? "dtstart") ps) as [q|] eqn:Hf;
    [|reflexivity].
  destruct (getFirstValue q) as [[t [z|]|v]|] eqn:Hv; cbn [truthy hasZone andb negb];
    try reflexivity.
  - unfold zonedProperties. rewrite find_onFirst by reflexivity. rewrite Hf.
    cbn [option_map]. rewrite getFirstValue_onFirstValue, Hv. reflexivity.
  - destruct (negb (v =? "")) eqn:Ev; [|reflexivity]. cbn [andb].
    unfold zonedProperties. rewrite find_onFirst by reflexivity. rewrite Hf.
    cbn [option_map]. rewrite getFirstValue_onFirstValue, Hv.
    cbn [option_map writeZone truthy hasZone negb]. rewrite Ev. cbn [andb].
    apply onFirst_twice; [reflexivity|].
    apply onFirstValue_writeZone_twice.
Qed.

Lemma zonedProperties_names :
  forall ps, map pname (zonedProperties ps) = map pname ps.
Proof.
  intros ps. unfold zonedProperties. destruct (_ && _); [|reflexivity].
  now apply onFirst_names.
Qed.

Lemma zonedProperties_ids :
  forall ps, map pid (zonedProperties ps) = map pid ps.
Proof.
  intros ps. unfold zonedProperties. destruct (_ && _); [|reflexivity].
  now apply onFirst_ids.
Qed.

Lemma removeObject_not_in :
  forall {A} (ident : A -> ObjId) i l,
    NoDup (map ident l) -> ~ In i (map ident (removeObject ident i l)).
Proof.
  intros A ident i l. induction l as [|y l IH]; simpl; intros H; [tauto|].
  inversion H as [|? ? Hy Hl]; subst.
  destruct (ident y =? i)%nat eqn:E.
  - apply Nat.eqb_eq in E. now rewrite <- E.
  - simpl. intros [Hi|Hi]; [apply Nat.eqb_neq in E; contradiction|].
    now apply IH in Hi.
Qed.

Lemma copied_ids_NoDup :
  forall names e,
    NoDup (map pid (properties e)) -> NoDup (map pid (copied names e)).
Proof.
  induction names as [|n rest IH]; intros e Hnd; simpl; [constructor|].
  destruct (getFirstProperty e n) as [p|] eqn:Hf; [|now apply IH].
  simpl. constructor.
  - intros Hin. apply in_map_iff in Hin. destruct Hin as [q [Hq Hin]].
    apply copied_subset in Hin. unfold removeProperty in Hin.
    cbn [properties withProperties] in Hin.
    apply (removeObject_not_in pid (pid p) (properties e) Hnd).
    apply in_map_iff. now exists q.
  - apply IH. unfold removeProperty. cbn [properties withProperties].
    now apply removeObject_NoDup.
Qed.

(** A list of properties whose names run through [names] in order, some
    left out, between properties of other names: the first property of
    each name is found where it stands. *)
Lemma firsts_of_ordered :
  forall names (g : string -> bool) ps pre tail,
    NoDup names ->
    map pname ps = filter g names ->
    (forall q, In q pre -> ~ In (pname q) names) ->
    (forall q, In q tail -> ~ In (pname q) names) ->
    flat_map (fun n => match find (fun p => pname p =? n) (pre ++ ps ++ tail)
                       with
                       | Some p => [p]
                       | None => []
                       end) names
    = ps.
Proof.
  induction names as [|a rest IH]; intros g ps pre tail Hn Hps Hpre Htail.
  - simpl in *. now destruct ps.
  - inversion Hn as [|? ? Ha Hrest]; subst. cbn [flat_map].
    assert (forall l : list Property,
               (forall q, In q l -> ~ In (pname q) (a :: rest)) ->
               ~ In a (map pname l)) as Hno.
    { intros l Hl Hin. apply in_map_iff in Hin. destruct Hin as [q [Hq Hin]].
      apply (Hl q Hin). left. now symmetry. }
    cbn [filter] in Hps. destruct (g a) eqn:Ega.
    + destruct ps as [|p ps]; [discriminate|].
      cbn [map] in Hps. injection Hps as Hp Hps.
      rewrite find_app_none by (apply Hno, Hpre).
      cbn [app find]. rewrite Hp, String.eqb_refl. cbn [app]. f_equal.
      specialize (IH g ps (pre ++ [p]) tail Hrest Hps).
      rewrite <- app_assoc in IH. cbn [app] in IH. apply IH.
      * intros q Hq Hin. apply in_app_iff in Hq. destruct Hq as [Hq|[<-|[]]].
        -- apply (Hpre q Hq). now right.
        -- rewrite Hp in Hin. contradiction.
      * intros q Hq Hin. apply (Htail q Hq). now right.
    + rewrite find_app_none by (apply Hno, Hpre).
      rewrite find_app_none.
      * rewrite find_none_names by (apply Hno, Htail). cbn [app].
        apply (IH g ps pre tail Hrest Hps).
        -- intros q Hq Hin. apply (Hpre q Hq). now right.
        -- intros q Hq Hin. apply (Htail q Hq). now right.
      * rewrite Hps. intros Hin. apply filter_In in Hin. tauto.
Qed.

(** An event made of some essential properties in their fixed order,
    then a summary: redacting it takes all of them. *)
Lemma copied_of_redacted_shape :
  forall (g : string -> bool) x ps s,
    properties x = ps ++ [s] ->
    pname s = "summary" ->
    map pname ps = filter g essentialProps ->
    NoDup (map pid (properties x)) ->
    copied essentialProps x = ps.
Proof.
  intros g x ps s Hx Hs Hps Hnd.
  rewrite (copied_first _ _ essentialProps_NoDup Hnd).
  unfold firstProperties, getFirstProperty. rewrite Hx.
  apply (firsts_of_ordered essentialProps g ps [] [s] essentialProps_NoDup Hps).
  - intros q [].
  - intros q [<-|[]]. rewrite Hs. simpl. intuition discriminate.
Qed.

Lemma contentOf_eq :
  forall c,
    contentOf c
    = mkContent (cname c) (map propertyContent (properties c))
        (map contentOf (components c)).
Proof. now intros [i n ps cs]. Qed.

Lemma redacted_twice :
  forall e n m,
    NoDup (map pid (properties e)) ->
    (forall p, In p (properties e) -> pid p < n) ->
    contentOf (redactedAs m (redactedAs n e)) = contentOf (redactedAs n e)
    /\ contentOf (zoned (redactedAs m (zoned (redactedAs n e))))
       = contentOf (zoned (redactedAs n e)).
Proof.
  intros e n m Hnd Hlt.
  assert (NoDup (map pid (copied essentialProps e ++ [busySummary (S n)])))
    as Hnd1.
  { rewrite map_app. apply NoDup_snoc; [now apply copied_ids_NoDup|].
    intros Hin. apply in_map_iff in Hin. destruct Hin as [q [Hq Hin]].
    apply copied_subset, Hlt in Hin. simpl in Hq. lia. }
  assert (map pname (copied essentialProps e)
          = filter (fun k => isSome (getFirstProperty e k)) essentialProps)
    as Hnames.
  { rewrite (copied_first _ _ essentialProps_NoDup Hnd).
    apply firstProperties_names. }
  split.
  - unfold redactedAs at 1.
    rewrite (copied_of_redacted_shape
               (fun k => isSome (getFirstProperty e k)) (redactedAs n e)
               (copied essentialProps e) (busySummary (S n)));
      [|reflexivity|reflexivity|exact Hnames|exact Hnd1].
    unfold redactedAs, contentOf. cbn [cname properties components map].
    now rewrite !map_app.
  - unfold redactedAs at 1.
    rewrite (copied_of_redacted_shape
               (fun k => isSome (getFirstProperty e k))
               (zoned (redactedAs n e))
               (zonedProperties (copied essentialProps e))
               (busySummary (S n))).
    + rewrite !(contentOf_eq (zoned _)). rewrite !zoned_cname, !zoned_components,
        !zoned_properties. cbn [cname components properties redactedAs].
      rewrite !zonedProperties_snoc by reflexivity.
      now rewrite zonedProperties_twice, !map_app.
    + rewrite zoned_properties. cbn [properties redactedAs].
      now apply zonedProperties_snoc.
    + reflexivity.
    + rewrite zonedProperties_names. exact Hnames.
    + rewrite zoned_ids. exact Hnd1.
Qed.

(** ** What obfuscation leaves of the sources *)

Lemma objIds_eq :
  forall c,
    objIds c
    = cid c :: map pid (properties c) ++ flat_map objIds (components c).
Proof. now intros [i n ps cs]. Qed.

Lemma withComponents_same : forall c, withComponents c (components c) = c.
Proof. now intros [i n ps cs]. Qed.

Lemma ident_injective :
  forall {A} (ident : A -> ObjId) l x y,
    NoDup (map ident l) -> In x l -> In y l -> ident x = ident y -> x = y.
Proof.
  intros A ident l. induction l as [|z l IH]; intros x y Hnd Hx Hy E;
    simpl in *; [tauto|].
  inversion Hnd as [|? ? Hz Hl]; subst.
  destruct Hx as [->|Hx], Hy as [->|Hy].
  - reflexivity.
  - exfalso. apply Hz. rewrite E. now apply in_map.
  - exfalso. apply Hz. rewrite <- E. now apply in_map.
  - now apply IH.
Qed.

Lemma removeObject_Permutation :
  forall {A} (ident : A -> ObjId) l p,
    NoDup (map ident l) -> In p l ->
    Permutation l (p :: removeObject ident (ident p) l).
Proof.
  intros A ident l p. induction l as [|x l IH]; intros Hnd Hp; simpl in *;
    [tauto|].
  destruct (ident x =? ident p)%nat eqn:E.
  - apply Nat.eqb_eq in E.
    assert (x = p) as ->; [|reflexivity].
    apply (ident_injective ident (x :: l)); simpl; auto.
  - inversion Hnd as [|? ? Hx Hl]; subst.
    destruct Hp as [->|Hp]; [rewrite Nat.eqb_refl in E; discriminate|].
    rewrite perm_swap. constructor. now apply IH.
Qed.

Lemma leftover_cid : forall names e, cid (leftover names e) = cid e.
Proof.
  induction names as [|n rest IH]; intros e; simpl; [reflexivity|].
  destruct (getFirstProperty e n); now rewrite IH.
Qed.

Lemma leftover_components :
  forall names e, components (leftover names e) = components e.
Proof.
  induction names as [|n rest IH]; intros e; simpl; [reflexivity|].
  destruct (getFirstProperty e n); now rewrite IH.
Qed.

Lemma copied_leftover_Permutation :
  forall names e,
    NoDup (map pid (properties e)) ->
    Permutation (properties e)
      (copied names e ++ properties (leftover names e)).
Proof.
  induction names as [|n rest IH]; intros e Hnd; simpl; [reflexivity|].
  destruct (getFirstProperty e n) as [p|] eqn:Hf; [|now apply IH].
  simpl. rewrite <- IH.
  - unfold removeProperty. cbn [properties withProperties].
    apply removeObject_Permutation; [exact Hnd|].
    apply find_some in Hf. tauto.
  - unfold removeProperty. cbn [properties withProperties].
    now apply removeObject_NoDup.
Qed.

(** The identities of an event are those of the properties moved out of
    it together with those of what is left of it. *)
Lemma objIds_leftover :
  forall e,
    NoDup (map pid (properties e)) ->
    Permutation (objIds e)
      (map pid (copied essentialProps e)
         ++ objIds (leftover essentialProps e)).
Proof.
  intros e Hnd. rewrite !objIds_eq, leftover_cid, leftover_components.
  rewrite (Permutation_map pid
             (copied_leftover_Permutation essentialProps e Hnd)).
  rewrite map_app, <- app_assoc. apply Permutation_middle.
Qed.

Lemma flat_map_Permutation :
  forall {A B} (f g h : A -> list B) l,
    (forall x, In x l -> Permutation (f x) (g x ++ h x)) ->
    Permutation (flat_map f l) (flat_map g l ++ flat_map h l).
Proof.
  intros A B f g h l. induction l as [|x l IH]; intros H; simpl;
    [reflexivity|].
  rewrite (H x (or_introl eq_refl)), IH by (intros y Hy; apply H; now right).
  rewrite <- !app_assoc. apply Permutation_app_head.
  rewrite !app_assoc. apply Permutation_app_tail. apply Permutation_app_comm.
Qed.

Lemma NoDup_flat_map_elem :
  forall {A B} (f : A -> list B) l x,
    NoDup (flat_map f l) -> In x l -> NoDup (f x).
Proof.
  intros A B f l x. induction l as [|y l IH]; simpl; [tauto|].
  intros Hnd [->|Hx].
  - eapply NoDup_app_remove_r, Hnd.
  - apply IH; [|exact Hx]. eapply NoDup_app_remove_l, Hnd.
Qed.

Lemma NoDup_app_disjoint :
  forall {A} (l1 l2 : list A) x,
    NoDup (l1 ++ l2) -> In x l1 -> ~ In x l2.
Proof.
  intros A l1 l2 x. induction l1 as [|y l1 IH]; simpl; [tauto|].
  intros Hnd [->|Hx] H2.
  - inversion Hnd as [|? ? Hy _]; subst. apply Hy, in_or_app. now right.
  - inversion Hnd as [|? ? _ Hl]; subst. now apply (IH Hl Hx).
Qed.

Lemma NoDup_flat_map_pick :
  forall {A B} (f : A -> list B) (h : A -> B) l,
    (forall x, In (h x) (f x)) ->
    NoDup (flat_map f l) -> NoDup (map h l).
Proof.
  intros A B f h l Hh. induction l as [|y l IH]; simpl; intros Hnd;
    [constructor|].
  constructor.
  - intros Hin. apply in_map_iff in Hin. destruct Hin as [z [Hz Hin]].
    apply (NoDup_app_disjoint _ _ (h y) Hnd (Hh y)).
    apply in_flat_map. exists z. split; [exact Hin|].
    rewrite <- Hz. apply Hh.
  - apply IH. eapply NoDup_app_remove_l, Hnd.
Qed.

Lemma objIds_head : forall c, In (cid c) (objIds c).
Proof. intros c. rewrite objIds_eq. now left. Qed.

Lemma objIds_NoDup_properties :
  forall c, NoDup (objIds c) -> NoDup (map pid (properties c)).
Proof.
  intros c. rewrite objIds_eq. intros H.
  inversion H as [|? ? _ H']; subst. eapply NoDup_app_remove_r, H'.
Qed.

Lemma objIds_NoDup_components :
  forall c, NoDup (objIds c) -> NoDup (flat_map objIds (components c)).
Proof.
  intros c. rewrite objIds_eq. intros H.
  inversion H as [|? ? _ H']; subst. eapply NoDup_app_remove_l, H'.
Qed.

Lemma map_no_match :
  forall {A} (ident : A -> ObjId) i (f : A -> A) l,
    ~ In i (map ident l) ->
    map (fun c => if (ident c =? i)%nat then f c else c) l = l.
Proof.
  intros A ident i f l. induction l as [|y l IH]; simpl; intros H;
    [reflexivity|].
  destruct (ident y =? i)%nat eqn:Ey.
  - exfalso. apply Nat.eqb_eq in Ey. apply H. now left.
  - f_equal. apply IH. intros Hin. apply H. now right.
Qed.

Lemma updateObject_map :
  forall {A} (ident : A -> ObjId) i f l,
    NoDup (map ident l) ->
    updateObject ident i f l
    = map (fun c => if (ident c =? i)%nat then f c else c) l.
Proof.
  intros A ident i f l. induction l as [|x l IH]; simpl; intros Hnd;
    [reflexivity|].
  inversion Hnd as [|? ? Hx Hl]; subst.
  destruct (ident x =? i)%nat eqn:E.
  - f_equal. apply Nat.eqb_eq in E. subst i.
    symmetry. now apply map_no_match.
  - f_equal. now apply IH.
Qed.

Lemma strippedIf_cid : forall ids c, cid (strippedIf ids c) = cid c.
Proof.
  intros ids c. unfold strippedIf.
  destruct (existsb (Nat.eqb (cid c)) ids); [|reflexivity].
  apply leftover_cid.
Qed.

Lemma sourceAfter_components :
  forall events calendar,
    NoDup (map cid (components calendar)) ->
    NoDup (map cid events) ->
    (forall e, In e events -> In e (components calendar)) ->
    sourceAfter true events calendar
    = withComponents calendar
        (map (strippedIf (map cid events)) (components calendar)).
Proof.
  induction events as [|e rest IH]; intros cal Hnd Hes Hin.
  - simpl. unfold strippedIf. simpl. now rewrite map_id, withComponents_same.
  - cbn [sourceAfter]. inversion Hes as [|? ? He Hrest]; subst.
    unfold storeSubcomponent. rewrite leftover_cid.
    rewrite (updateObject_map cid (cid e) _ _ Hnd).
    set (h := fun c => if (cid c =? cid e)%nat
                       then leftover essentialProps e else c).
    assert (forall c, cid (h c) = cid c) as Hh.
    { intros c. unfold h. destruct (cid c =? cid e)%nat eqn:E; [|reflexivity].
      rewrite leftover_cid. apply Nat.eqb_eq in E. now symmetry. }
    rewrite IH.
    + unfold withComponents. cbn [cid cname properties components].
      f_equal. rewrite map_map. apply map_ext_in. intros c Hc.
      unfold strippedIf. rewrite Hh. cbn [map existsb]. unfold h.
      destruct (cid c =? cid e)%nat eqn:E.
      * cbn [orb]. apply Nat.eqb_eq in E.
        assert (c = e) as ->.
        { apply (ident_injective cid (components cal)); auto.
          apply Hin. now left. }
        destruct (existsb (Nat.eqb (cid e)) (map cid rest)) eqn:Ex;
          [|reflexivity].
        exfalso. apply existsb_exists in Ex. destruct Ex as [i [Hi Ei]].
        apply Nat.eqb_eq in Ei. subst i. contradiction.
      * reflexivity.
    + cbn [components withComponents]. rewrite map_map.
      rewrite (map_ext _ cid Hh). exact Hnd.
    + exact Hrest.
    + intros e' He'. cbn [components withComponents].
      apply in_map_iff. exists e'. split.
      * unfold h. destruct (cid e' =? cid e)%nat eqn:E; [|reflexivity].
        exfalso. apply Nat.eqb_eq in E. apply He. rewrite <- E.
        now apply in_map.
      * apply Hin. now right.
Qed.

Lemma NoDup_map_filter :
  forall {A B} (h : A -> B) (f : A -> bool) l,
    NoDup (map h l) -> NoDup (map h (filter f l)).
Proof.
  intros A B h f l. induction l as [|x l IH]; simpl; intros H; [constructor|].
  inversion H as [|? ? Hx Hl]; subst.
  destruct (f x); simpl; [|now apply IH].
  constructor; [|now apply IH].
  intros Hin. apply Hx. apply in_map_iff in Hin.
  destruct Hin as [y [Hy Hin]]. apply filter_In in Hin.
  apply in_map_iff. exists y. tauto.
Qed.

Lemma sourceAfter_vevents :
  forall t,
    NoDup (objIds t) ->
    sourceAfter true (vevents t) t = strippedCalendar t.
Proof.
  intros t Hnd.
  assert (NoDup (map cid (components t))) as Hc.
  { apply (NoDup_flat_map_pick objIds cid _ objIds_head).
    now apply objIds_NoDup_components. }
  rewrite sourceAfter_components.
  - unfold strippedCalendar. f_equal. apply map_ext_in. intros c Hin.
    unfold strippedIf.
    destruct (cname c =? "vevent") eqn:Ev.
    + assert (existsb (Nat.eqb (cid c)) (map cid (vevents t)) = true) as ->;
        [|reflexivity].
      apply existsb_exists. exists (cid c). split; [|apply Nat.eqb_refl].
      apply in_map, filter_In. tauto.
    + destruct (existsb (Nat.eqb (cid c)) (map cid (vevents t))) eqn:Ex;
        [|reflexivity].
      exfalso. apply existsb_exists in Ex. destruct Ex as [i [Hi Ei]].
      apply Nat.eqb_eq in Ei. subst i. apply in_map_iff in Hi.
      destruct Hi as [c' [Hc' Hin']]. apply filter_In in Hin'.
      destruct Hin' as [Hin' Hv].
      assert (c' = c) as -> by
          (apply (ident_injective cid (components t)); auto).
      congruence.
  - exact Hc.
  - now apply NoDup_map_filter.
  - intros e He. apply filter_In in He. tauto.
Qed.

Lemma flat_map_map :
  forall {A B C} (g : A -> B) (f : B -> list C) l,
    flat_map f (map g l) = flat_map (fun x => f (g x)) l.
Proof.
  intros A B C g f l. induction l as [|x l IH]; simpl; [reflexivity|].
  now rewrite IH.
Qed.

Lemma movedIds_of_children :
  forall cs,
    flat_map (fun c => if cname c =? "vevent" then movedIds c else []) cs
    = flat_map movedIds (filter (fun c => cname c =? "vevent") cs).
Proof.
  induction cs as [|c cs IH]; simpl; [reflexivity|].
  destruct (cname c =? "vevent"); simpl; now rewrite IH.
Qed.

(** The identities of a source calendar: those moved into the combined
    calendar, and those the source calendar keeps. *)
Lemma strippedCalendar_Permutation :
  forall t,
    NoDup (objIds t) ->
    Permutation (objIds t)
      (flat_map movedIds (vevents t) ++ objIds (strippedCalendar t)).
Proof.
  intros t Hnd. rewrite (objIds_eq (strippedCalendar t)), (objIds_eq t).
  unfold strippedCalendar. cbn [cid properties components withComponents].
  unfold vevents, getAllSubcomponents. rewrite <- movedIds_of_children.
  rewrite flat_map_map.
  rewrite (flat_map_Permutation objIds
             (fun c => if cname c =? "vevent" then movedIds c else [])
             (fun c => objIds (if cname c =? "vevent"
                               then leftover essentialProps c else c))).
  - apply (Permutation_app_swap_app (cid t :: map pid (properties t))).
  - intros c Hc. destruct (cname c =? "vevent"); [|reflexivity].
    apply objIds_leftover. apply objIds_NoDup_properties.
    eapply NoDup_flat_map_elem; [|exact Hc].
    now apply objIds_NoDup_components.
Qed.

Lemma perEvent_objIds :
  forall k e,
    objIds (perEvent true k e) = k :: (movedIds e ++ [S k]) ++ [].
Proof.
  intros k e. rewrite objIds_eq. unfold perEvent.
  rewrite zoned_cid, zoned_ids, zoned_components.
  unfold redactedAs, movedIds. cbn [cid properties components flat_map].
  now rewrite map_app.
Qed.

Lemma appended_objIds :
  forall events k i,
    In i (flat_map objIds (appended true k events)) ->
    k <= i \/ In i (flat_map movedIds events).
Proof.
  induction events as [|e rest IH]; intros k i; simpl; [tauto|].
  rewrite perEvent_objIds, !in_app_iff. cbn [In]. rewrite !in_app_iff.
  cbn [In].
  intros [[<-|[[H|[<-|[]]]|[]]]|H].
  - left. lia.
  - right. now left.
  - left. lia.
  - apply IH in H. destruct H as [H|H]; [left; lia | right; now right].
Qed.

Lemma flat_map_flat_map :
  forall {A B C} (f : A -> list B) (g : B -> list C) l,
    flat_map g (flat_map f l) = flat_map (fun x => flat_map g (f x)) l.
Proof.
  intros A B C f g l. induction l as [|x l IH]; simpl; [reflexivity|].
  now rewrite flat_map_app, IH.
Qed.

(** After a run with obfuscation over sources whose objects are distinct
    and older than the allocator, the source calendars left behind and
    the combined calendar have no object in common. *)
Lemma sources_and_combined_disjoint :
  forall trees n,
    NoDup (flat_map objIds trees) ->
    (forall i, In i (flat_map objIds trees) -> i < n) ->
    forall i,
      In i (flat_map objIds (map strippedCalendar trees)) ->
      ~ In i (objIds (mkComponent n "vcalendar" []
                        (appended true (S n) (flat_map vevents trees)))).
Proof.
  intros trees n Hnd Hlt i Hs Hc.
  assert (Permutation (flat_map objIds trees)
            (flat_map (fun t => flat_map movedIds (vevents t)) trees
               ++ flat_map (fun t => objIds (strippedCalendar t)) trees))
    as HP.
  { apply flat_map_Permutation. intros t Ht.
    apply strippedCalendar_Permutation.
    eapply NoDup_flat_map_elem; eassumption. }
  rewrite flat_map_map in Hs.
  assert (i < n) as Hi.
  { apply Hlt. eapply Permutation_in; [symmetry; exact HP|].
    apply in_or_app. now right. }
  rewrite objIds_eq in Hc. cbn [cid properties components map app] in Hc.
  destruct Hc as [<-|Hc]; [lia|].
  apply appended_objIds in Hc. destruct Hc as [Hc|Hc]; [lia|].
  rewrite flat_map_flat_map in Hc.
  apply (NoDup_app_disjoint _ _ i (Permutation_NoDup HP Hnd) Hc Hs).
Qed.

Lemma distinct_flat_map_elem :
  forall trees t,
    NoDup (flat_map objIds trees) -> In t trees -> NoDup (objIds t).
Proof.
  intros trees t H Ht. eapply NoDup_flat_map_elem; eassumption.
Qed.

Lemma appended_related_from :
  forall (P : Component -> Component -> Prop) events k,
    (forall e i, In e events -> k <= i -> P e (perEvent true i e)) ->
    Forall2 P events (appended true k events).
Proof.
  intros P events. induction events as [|e rest IH]; intros k H; simpl.
  - constructor.
  - constructor; [apply H; [now left|lia]|].
    apply IH. intros e' i He' Hi. apply H; [now right|lia].
Qed.

Lemma vevent_properties_NoDup :
  forall trees e,
    NoDup (flat_map objIds trees) ->
    In e (flat_map vevents trees) ->
    NoDup (map pid (properties e)).
Proof.
  intros trees e Hnd He. apply in_flat_map in He. destruct He as [t [Ht He]].
  apply filter_In in He. destruct He as [He _].
  apply objIds_NoDup_properties.
  eapply NoDup_flat_map_elem; [|exact He].
  apply objIds_NoDup_components.
  eapply distinct_flat_map_elem; eassumption.
Qed.

Lemma forallb_false_In :
  forall {A} (f : A -> bool) l x,
    In x l -> f x = false -> forallb f l = false.
Proof.
  intros A f l x Hin Hf. destruct (forallb f l) eqn:E; [|reflexivity].
  rewrite forallb_forall in E. rewrite (E x Hin) in Hf. discriminate.
Qed.

(** Without obfuscation the appended events are the source events, each
    after the timezone step. *)
Lemma appended_plain :
  forall events id, appended false id events = map zoned events.
Proof.
  induction events as [|e rest IH]; intros id; simpl; [reflexivity|].
  now rewrite IH.
Qed.

(** * The claims *)

Section Claims.

Variable parse : string -> Completion Component.

(** C2.  For sources that parse, and both values of [obfuscate], the
    number of vevent components of the combined calendar is the sum,
    over the sources, of the number of vevent components extracted from
    each: every event is appended once. *)
Theorem combined_event_count :
  forall calendars trees obfuscate st,
    parseAll parse calendars = Normal trees ->
    exists combined st',
      combineCalendars parse calendars obfuscate st = Normal (combined, st')
      /\ length (getAllSubcomponents combined "vevent")
         = list_sum
             (map (fun t => length (getAllSubcomponents t "vevent")) trees)
      /\ length (components combined)
         = length (getAllSubcomponents combined "vevent").
Proof.
  intros calendars trees ob st H.
  eexists. eexists. split; [apply combineCalendars_spec, H|].
  unfold getAllSubcomponents at 1 3. cbn [components].
  rewrite filter_all.
  - split; [|reflexivity].
    rewrite appended_length. apply flat_map_length_sum.
  - intros a Ha. apply String.eqb_eq.
    eapply appended_cname; [|exact Ha]. apply flat_map_vevents_cname.
Qed.

(** C8.  The events of the combined calendar are the events of the
    sources in concatenation order: sources in the order given, events
    of one source in their order; position by position each is what one
    iteration makes of the source event, and without obfuscation the
    very objects are lined up as they were. *)
Theorem combined_event_order :
  forall calendars trees obfuscate st,
    parseAll parse calendars = Normal trees ->
    exists combined st',
      combineCalendars parse calendars obfuscate st = Normal (combined, st')
      /\ Forall2 (fun e a => exists id, a = perEvent obfuscate id e)
           (flat_map (fun t => getAllSubcomponents t "vevent") trees)
           (components combined)
      /\ (obfuscate = false ->
          map cid (components combined)
          = map cid
              (flat_map (fun t => getAllSubcomponents t "vevent") trees)).
Proof.
  intros calendars trees ob st H.
  eexists. eexists. split; [apply combineCalendars_spec, H|].
  cbn [components]. split; [apply appended_Forall2|].
  intros ->. generalize (S (nextId st)).
  fold vevents. induction (flat_map vevents trees) as [|e l IH];
    intros n; simpl; [reflexivity|].
  unfold perEvent at 1. rewrite zoned_cid. f_equal. apply IH.
Qed.

(** C10.  The combined calendar is a "vcalendar" component without any
    property of its own; all that is ever put into it are vevent
    subcomponents. *)
Theorem combined_has_no_property :
  forall calendars trees obfuscate st,
    parseAll parse calendars = Normal trees ->
    exists combined st',
      combineCalendars parse calendars obfuscate st = Normal (combined, st')
      /\ cname combined = "vcalendar"
      /\ properties combined = []
      /\ forall a, In a (components combined) -> cname a = "vevent".
Proof.
  intros calendars trees ob st H.
  eexists. eexists. split; [apply combineCalendars_spec, H|].
  cbn [cname properties components]. repeat split.
  intros a Ha. eapply appended_cname; [|exact Ha].
  apply flat_map_vevents_cname.
Qed.

(** C1.  With [obfuscate] true, and source events whose properties are
    distinct objects, the event appended for a source event is a new
    "vevent" holding exactly: the first property of the source event for
    each of dtstart, dtend, duration, rrule, uid that the source event
    has, in that order, then a summary property of value "BUSY" (the
    start then goes through the timezone step, [zoned]).  It has no
    subcomponent and no property of another name: no location,
    description, attendee, organizer, categories or X- property. *)
Theorem obfuscated_event_contents :
  forall calendars trees st,
    parseAll parse calendars = Normal trees ->
    forallb (fun e => distinct (map pid (properties e)))
      (flat_map (fun t => getAllSubcomponents t "vevent") trees) = true ->
    exists combined st',
      combineCalendars parse calendars true st = Normal (combined, st')
      /\ Forall2
           (fun e a =>
              (exists id,
                  a = zoned (mkComponent id "vevent"
                               (firstProperties essentialProps e
                                  ++ [busySummary (S id)]) []))
              /\ map pname (properties a)
                 = filter (fun n => isSome (getFirstProperty e n))
                     essentialProps ++ ["summary"]
              /\ components a = []
              /\ (forall p, In p (properties a) -> pname p = "summary" ->
                            pvalues p = [VString "BUSY"])
              /\ (forall p, In p (properties a) ->
                            ~ In (pname p)
                                ["location"; "description"; "attendee";
                                 "attendees"; "organizer"; "categories"]
                            /\ String.prefix "x-" (pname p) = false))
           (flat_map (fun t => getAllSubcomponents t "vevent") trees)
           (components combined).
Proof.
  intros calendars trees st H Hd.
  eexists. eexists. split; [apply combineCalendars_spec, H|].
  cbn [components]. apply appended_related. intros e i He.
  rewrite forallb_forall in Hd. apply Hd in He. apply distinct_NoDup in He.
  destruct (redacted_contents i e He) as [Ha [Hn [Hc Hs]]].
  split; [now exists i|]. split; [exact Hn|]. split; [exact Hc|].
  split.
  - intros p Hp Hsum. now rewrite (Hs p Hp Hsum).
  - intros p Hp. apply (in_map pname) in Hp. rewrite Hn in Hp.
    apply in_app_iff in Hp. destruct Hp as [Hp|Hp].
    + apply filter_In in Hp. destruct Hp as [Hp _].
      simpl in Hp.
      repeat (destruct Hp as [<-|Hp];
              [split; [simpl; intuition discriminate|reflexivity]|]).
      destruct Hp.
    + simpl in Hp. destruct Hp as [<-|[]].
      split; [simpl; intuition discriminate|reflexivity].
Qed.

(** C4.  The code misses what the claim says.  The UTC zone is assigned
    to a start that has no zone object.  A floating start, as the parser
    builds it, holds the zone object [localTimezone]; the object is
    truthy, so the test [!startDate.zone] fails and nothing is assigned.
    Under either value of [obfuscate] the appended event has the start of
    the source event, still floating, and the combined calendar of a run
    that met such an event does not have every start zoned. *)
Theorem floating_start_is_left_floating :
  forall calendars trees obfuscate st,
    parseAll parse calendars = Normal trees ->
    exists combined st',
      combineCalendars parse calendars obfuscate st = Normal (combined, st')
      /\ Forall2
           (fun e a =>
              (forall t,
                  getFirstPropertyValue e "dtstart"
                  = Some (VTime t (Some localTimezone)) ->
                  getFirstPropertyValue a "dtstart"
                  = Some (VTime t (Some localTimezone)))
              /\ (forall t,
                     getFirstPropertyValue e "dtstart" = Some (VTime t None) ->
                     getFirstPropertyValue a "dtstart"
                     = Some (VTime t (Some utcTimezone))))
           (flat_map (fun t => getAllSubcomponents t "vevent") trees)
           (components combined)
      /\ (forall e t,
             In e (flat_map (fun t => getAllSubcomponents t "vevent") trees) ->
             getFirstPropertyValue e "dtstart"
             = Some (VTime t (Some localTimezone)) ->
             everyStartZoned combined = false).
Proof.
  intros calendars trees ob st H.
  eexists. eexists. split; [apply combineCalendars_spec, H|].
  cbn [components].
  assert (Forall2
            (fun e a =>
               (forall t,
                   getFirstPropertyValue e "dtstart"
                   = Some (VTime t (Some localTimezone)) ->
                   getFirstPropertyValue a "dtstart"
                   = Some (VTime t (Some localTimezone)))
               /\ (forall t,
                      getFirstPropertyValue e "dtstart"
                      = Some (VTime t None) ->
                      getFirstPropertyValue a "dtstart"
                      = Some (VTime t (Some utcTimezone))))
            (flat_map vevents trees)
            (appended ob (S (nextId st)) (flat_map vevents trees))) as HF.
  { apply appended_related. intros e i _.
    split; intros t Ht; now rewrite perEvent_first_start, Ht. }
  split; [exact HF|].
  intros e t He Ht.
  destruct (Forall2_left_in _ _ _ HF e He) as [a [Ha [Hs _]]].
  specialize (Hs t Ht). unfold everyStartZoned. cbn [components].
  apply (forallb_false_In _ _ a Ha).
  unfold getFirstPropertyValue in Hs.
  destruct (getFirstProperty a "dtstart") as [p|] eqn:Hp; [|discriminate].
  apply find_some in Hp. destruct Hp as [Hin Hn].
  apply (forallb_false_In _ _ p Hin). now rewrite Hn, Hs.
Qed.

(** C3, as the code has it.  The events [combineCalendars] takes from a
    source are exactly the children of the parsed top-level component
    named "vevent", in document order: the appended events line up,
    position by position, with these children taken source by source,
    each being what one iteration makes of the child at its position (so
    there are as many, none twice and none out of place; without
    obfuscation they are these very objects); each such child yields an
    appended event, and every appended event comes from one of them.  A
    vevent further down is not looked for. *)
Theorem direct_children_are_extracted :
  forall calendars trees obfuscate st,
    parseAll parse calendars = Normal trees ->
    exists combined st',
      combineCalendars parse calendars obfuscate st = Normal (combined, st')
      /\ Forall2 (fun e a => exists id, a = perEvent obfuscate id e)
           (flat_map
              (fun t => filter (fun c => cname c =? "vevent") (components t))
              trees)
           (components combined)
      /\ length (components combined)
         = length
             (flat_map
                (fun t => filter (fun c => cname c =? "vevent") (components t))
                trees)
      /\ (obfuscate = false ->
          components combined
          = map zoned
              (flat_map
                 (fun t =>
                    filter (fun c => cname c =? "vevent") (components t))
                 trees))
      /\ (forall t e,
             In t trees -> In e (components t) -> cname e = "vevent" ->
             exists a id,
               In a (components combined) /\ a = perEvent obfuscate id e)
      /\ (forall a,
             In a (components combined) ->
             exists t e id,
               In t trees /\ In e (components t) /\ cname e = "vevent"
               /\ a = perEvent obfuscate id e).
Proof.
  intros calendars trees ob st H.
  eexists. eexists. split; [apply combineCalendars_spec, H|].
  cbn [components].
  change (flat_map
            (fun t => filter (fun c => cname c =? "vevent") (components t))
            trees)
    with (flat_map vevents trees).
  pose proof (appended_Forall2 ob (flat_map vevents trees) (S (nextId st)))
    as HF.
  split; [exact HF|]. split; [apply appended_length|]. split; [|split].
  - intros ->. apply appended_plain.
  - intros t e Ht He Hn.
    destruct (Forall2_left_in _ _ _ HF e) as [a [Ha [i Hi]]].
    + apply in_flat_map. exists t. split; [exact Ht|].
      apply filter_In. split; [exact He|]. now apply String.eqb_eq.
    + now exists a, i.
  - intros a Ha.
    destruct (Forall2_right_in _ _ _ HF a Ha) as [e [He [i Hi]]].
    apply in_flat_map in He. destruct He as [t [Ht He]].
    apply filter_In in He. destruct He as [He Hn].
    apply String.eqb_eq in Hn. now exists t, e, i.
Qed.

(** C5, as the code has it.  With [obfuscate] true, and sources whose
    objects are distinct and older than the allocator: each appended
    event is a new component and its summary is a new property, while its
    other properties are, by identity, the first essential properties of
    the source event, moved out of it.  The source calendars are left
    with their events stripped of these, and have no object in common
    with the combined calendar. *)
Theorem obfuscation_moves_properties :
  forall calendars trees st,
    parseAll parse calendars = Normal trees ->
    distinct (flat_map objIds trees) = true ->
    forallb (fun i => i <? nextId st)%nat (flat_map objIds trees) = true ->
    exists sources combined st',
      combineCalendarsAndSources parse calendars true st
      = Normal ((sources, combined), st')
      /\ combineCalendars parse calendars true st = Normal (combined, st')
      /\ Forall2
           (fun e a =>
              nextId st < cid a
              /\ map pid (properties a)
                 = map pid (firstProperties essentialProps e) ++ [S (cid a)])
           (flat_map (fun t => getAllSubcomponents t "vevent") trees)
           (components combined)
      /\ sources = map strippedCalendar trees
      /\ (forall i,
             In i (flat_map objIds sources) -> ~ In i (objIds combined)).
Proof.
  intros calendars trees st H Hd Hlt.
  apply distinct_NoDup in Hd.
  assert (forall i, In i (flat_map objIds trees) -> i < nextId st) as Hlt'.
  { intros i Hi. rewrite forallb_forall in Hlt. now apply Nat.ltb_lt, Hlt. }
  assert (map (fun t => sourceAfter true (vevents t) t) trees
          = map strippedCalendar trees) as Hs.
  { apply map_ext_in. intros t Ht. apply sourceAfter_vevents.
    eapply distinct_flat_map_elem; eassumption. }
  eexists. eexists. eexists.
  split; [apply combineCalendarsAndSources_spec, H|].
  split; [apply combineCalendars_spec, H|].
  rewrite Hs. cbn [components]. split; [|split; [reflexivity|]].
  - apply appended_related_from. intros e i He Hi.
    unfold perEvent. rewrite zoned_cid, zoned_ids.
    cbn [cid properties redactedAs]. split; [lia|].
    rewrite map_app. f_equal. f_equal. apply copied_first.
    + apply essentialProps_NoDup.
    + eapply vevent_properties_NoDup; eassumption.
  - now apply sources_and_combined_disjoint.
Qed.

End Claims.

(** C9.  With no source at all, [combineCalendars] returns an empty
    "vcalendar" for either value of [obfuscate]; the demand for two
    sources is the check [main] makes on the URLs before it calls. *)
Theorem no_source_gives_empty_calendar :
  (forall parse obfuscate st,
      combineCalendars parse [] obfuscate st
      = Normal (mkComponent (nextId st) "vcalendar" [] [],
                mkStore (S (nextId st))))
  /\ requireTwoUrls []
     = Throw (Error "At least two calendar URLs are required")
  /\ (forall url,
         requireTwoUrls [url]
         = Throw (Error "At least two calendar URLs are required"))
  /\ (forall url1 url2 urls, requireTwoUrls (url1 :: url2 :: urls) = Normal tt).
Proof.
  repeat split.
Qed.

Lemma combined_event_count_witness :
  parseAll Sample.parse ["A"; "B"] = Normal [Sample.calendarA; Sample.calendarB]
  /\ exists combined st',
       combineCalendars Sample.parse ["A"; "B"] true Sample.store
       = Normal (combined, st')
       /\ length (getAllSubcomponents combined "vevent")
          = list_sum
              (map (fun t => length (getAllSubcomponents t "vevent"))
                 [Sample.calendarA; Sample.calendarB])
       /\ length (components combined)
          = length (getAllSubcomponents combined "vevent").
Proof.
  split; [reflexivity|].
  apply (combined_event_count Sample.parse ["A"; "B"]
           [Sample.calendarA; Sample.calendarB]).
  reflexivity.
Defined.

Lemma combined_event_order_witness :
  parseAll Sample.parse ["B"; "A"] = Normal [Sample.calendarB; Sample.calendarA]
  /\ exists combined st',
       combineCalendars Sample.parse ["B"; "A"] false Sample.store
       = Normal (combined, st')
       /\ Forall2 (fun e a => exists id, a = perEvent false id e)
            (flat_map (fun t => getAllSubcomponents t "vevent")
               [Sample.calendarB; Sample.calendarA])
            (components combined)
       /\ (false = false ->
           map cid (components combined)
           = map cid
               (flat_map (fun t => getAllSubcomponents t "vevent")
                  [Sample.calendarB; Sample.calendarA])).
Proof.
  split; [reflexivity|].
  apply (combined_event_order Sample.parse ["B"; "A"]
           [Sample.calendarB; Sample.calendarA]).
  reflexivity.
Defined.

Lemma combined_has_no_property_witness :
  parseAll Sample.parse ["A"; "B"] = Normal [Sample.calendarA; Sample.calendarB]
  /\ exists combined st',
       combineCalendars Sample.parse ["A"; "B"] false Sample.store
       = Normal (combined, st')
       /\ cname combined = "vcalendar"
       /\ properties combined = []
       /\ forall a, In a (components combined) -> cname a = "vevent".
Proof.
  split; [reflexivity|].
  apply (combined_has_no_property Sample.parse ["A"; "B"]
           [Sample.calendarA; Sample.calendarB]).
  reflexivity.
Defined.

Lemma obfuscated_event_contents_witness :
  parseAll Sample.parse ["A"; "B"] = Normal [Sample.calendarA; Sample.calendarB]
  /\ forallb (fun e => distinct (map pid (properties e)))
       (flat_map (fun t => getAllSubcomponents t "vevent")
          [Sample.calendarA; Sample.calendarB]) = true
  /\ exists combined st',
       combineCalendars Sample.parse ["A"; "B"] true Sample.store
       = Normal (combined, st')
       /\ Forall2
            (fun e a =>
               (exists id,
                   a = zoned (mkComponent id "vevent"
                                (firstProperties essentialProps e
                                   ++ [busySummary (S id)]) []))
               /\ map pname (properties a)
                  = filter (fun n => isSome (getFirstProperty e n))
                      essentialProps ++ ["summary"]
               /\ components a = []
               /\ (forall p, In p (properties a) -> pname p = "summary" ->
                             pvalues p = [VString "BUSY"])
               /\ (forall p, In p (properties a) ->
                             ~ In (pname p)
                                 ["location"; "description"; "attendee";
                                  "attendees"; "organizer"; "categories"]
                             /\ String.prefix "x-" (pname p) = false))
            (flat_map (fun t => getAllSubcomponents t "vevent")
               [Sample.calendarA; Sample.calendarB])
            (components combined).
Proof.
  split; [reflexivity|]. split; [reflexivity|].
  apply (obfuscated_event_contents Sample.parse ["A"; "B"]
           [Sample.calendarA; Sample.calendarB]); reflexivity.
Defined.

Lemma floating_start_is_left_floating_witness :
  parseAll Sample.parse ["A"; "B"] = Normal [Sample.calendarA; Sample.calendarB]
  /\ exists combined st',
       combineCalendars Sample.parse ["A"; "B"] true Sample.store
       = Normal (combined, st')
       /\ Forall2
            (fun e a =>
               (forall t,
                   getFirstPropertyValue e "dtstart"
                   = Some (VTime t (Some localTimezone)) ->
                   getFirstPropertyValue a "dtstart"
                   = Some (VTime t (Some localTimezone)))
               /\ (forall t,
                      getFirstPropertyValue e "dtstart"
                      = Some (VTime t None) ->
                      getFirstPropertyValue a "dtstart"
                      = Some (VTime t (Some utcTimezone))))
            (flat_map (fun t => getAllSubcomponents t "vevent")
               [Sample.calendarA; Sample.calendarB])
            (components combined)
       /\ (forall e t,
              In e (flat_map (fun t => getAllSubcomponents t "vevent")
                      [Sample.calendarA; Sample.calendarB]) ->
              getFirstPropertyValue e "dtstart"
              = Some (VTime t (Some localTimezone)) ->
              everyStartZoned combined = false).
Proof.
  split; [reflexivity|].
  apply (floating_start_is_left_floating Sample.parse ["A"; "B"]
           [Sample.calendarA; Sample.calendarB]); reflexivity.
Defined.

(** C3 as stated fails: a vevent below a grouping component is in the
    source and not in the combined calendar. *)
Lemma nested_event_is_not_extracted :
  parseAll Sample.parse ["D"] = Normal [Sample.calendarD]
  /\ descendantsNamed "vevent" Sample.calendarD = [Sample.nested]
  /\ combineCalendars Sample.parse ["D"] false Sample.store
     = Normal (mkComponent 100 "vcalendar" [] [], mkStore 101)
  /\ combineCalendars Sample.parse ["D"] true Sample.store
     = Normal (mkComponent 100 "vcalendar" [] [], mkStore 101).
Proof.
  repeat split.
Qed.

Lemma direct_children_are_extracted_witness :
  parseAll Sample.parse ["D"; "B"] = Normal [Sample.calendarD; Sample.calendarB]
  /\ exists combined st',
       combineCalendars Sample.parse ["D"; "B"] false Sample.store
       = Normal (combined, st')
       /\ Forall2 (fun e a => exists id, a = perEvent false id e)
            (flat_map
               (fun t => filter (fun c => cname c =? "vevent") (components t))
               [Sample.calendarD; Sample.calendarB])
            (components combined)
       /\ length (components combined)
          = length
              (flat_map
                 (fun t =>
                    filter (fun c => cname c =? "vevent") (components t))
                 [Sample.calendarD; Sample.calendarB])
       /\ (false = false ->
           components combined
           = map zoned
               (flat_map
                  (fun t =>
                     filter (fun c => cname c =? "vevent") (components t))
                  [Sample.calendarD; Sample.calendarB]))
       /\ (forall t e,
              In t [Sample.calendarD; Sample.calendarB] ->
              In e (components t) -> cname e = "vevent" ->
              exists a id,
                In a (components combined) /\ a = perEvent false id e)
       /\ (forall a,
              In a (components combined) ->
              exists t e id,
                In t [Sample.calendarD; Sample.calendarB]
                /\ In e (components t) /\ cname e = "vevent"
                /\ a = perEvent false id e).
Proof.
  split; [reflexivity|].
  apply (direct_children_are_extracted Sample.parse ["D"; "B"]
           [Sample.calendarD; Sample.calendarB]); reflexivity.
Defined.

(** C6.  Redaction is idempotent: for an event whose properties are
    distinct objects older than the allocator, redacting the redacted
    event gives an event with the same name, the same properties with the
    same parameters and values in the same order, and no subcomponent;
    and the same holds when each redaction is followed by the timezone
    step of the loop. *)
Theorem redaction_idempotent :
  forall e st st2,
    distinct (map pid (properties e)) = true ->
    forallb (fun p => pid p <? nextId st)%nat (properties e) = true ->
    exists left1 once st1 left2 twice st2',
      obfuscateEvent e st = Normal ((left1, once), st1)
      /\ obfuscateEvent once st2 = Normal ((left2, twice), st2')
      /\ contentOf twice = contentOf once
      /\ exists onceZ left3 twiceR st3 twiceZ,
           normalizeStart once st1 = Normal (onceZ, st1)
           /\ obfuscateEvent onceZ st2 = Normal ((left3, twiceR), st3)
           /\ normalizeStart twiceR st3 = Normal (twiceZ, st3)
           /\ contentOf twiceZ = contentOf onceZ.
Proof.
  intros e st st2 Hd Hlt. apply distinct_NoDup in Hd.
  assert (forall p, In p (properties e) -> pid p < nextId st) as Hlt'.
  { intros p Hp. rewrite forallb_forall in Hlt. now apply Nat.ltb_lt, Hlt. }
  destruct (redacted_twice e (nextId st) (nextId st2) Hd Hlt') as [H1 H2].
  do 6 eexists. split; [apply obfuscateEvent_spec|].
  split; [apply obfuscateEvent_spec|]. split; [exact H1|].
  do 5 eexists. split; [apply normalizeStart_spec|].
  split; [apply obfuscateEvent_spec|].
  split; [apply normalizeStart_spec|exact H2].
Qed.

Lemma redaction_idempotent_witness :
  distinct (map pid (properties Sample.weekly)) = true
  /\ forallb (fun p => pid p <? nextId Sample.store)%nat
       (properties Sample.weekly) = true
  /\ exists left1 once st1 left2 twice st2',
       obfuscateEvent Sample.weekly Sample.store = Normal ((left1, once), st1)
       /\ obfuscateEvent once (mkStore 200) = Normal ((left2, twice), st2')
       /\ contentOf twice = contentOf once
       /\ exists onceZ left3 twiceR st3 twiceZ,
            normalizeStart once st1 = Normal (onceZ, st1)
            /\ obfuscateEvent onceZ (mkStore 200)
               = Normal ((left3, twiceR), st3)
            /\ normalizeStart twiceR st3 = Normal (twiceZ, st3)
            /\ contentOf twiceZ = contentOf onceZ.
Proof.
  split; [reflexivity|]. split; [reflexivity|].
  apply (redaction_idempotent Sample.weekly Sample.store (mkStore 200));
    reflexivity.
Defined.

(** C5 as stated fails: the appended event holds the dtstart and uid
    properties the parser made for the source event, the very objects. *)
Lemma appended_event_holds_source_properties :
  exists sources a st',
    combineCalendarsAndSources Sample.parse ["A"] true Sample.store
    = Normal ((sources, mkComponent 100 "vcalendar" [] [a]), st')
    /\ map pid (properties Sample.dentist) = [3; 4; 5; 6]
    /\ map pid (properties a) = [4; 6; 102]
    /\ sharedProperties a Sample.dentist = [4; 6]
    /\ map (fun s => map (fun e => map pid (properties e)) (components s))
         sources
       = [[[3; 5]]].
Proof.
  do 3 eexists. repeat split.
Qed.

Lemma obfuscation_moves_properties_witness :
  parseAll Sample.parse ["A"; "B"] = Normal [Sample.calendarA; Sample.calendarB]
  /\ distinct (flat_map objIds [Sample.calendarA; Sample.calendarB]) = true
  /\ forallb (fun i => i <? nextId Sample.store)%nat
       (flat_map objIds [Sample.calendarA; Sample.calendarB]) = true
  /\ exists sources combined st',
       combineCalendarsAndSources Sample.parse ["A"; "B"] true Sample.store
       = Normal ((sources, combined), st')
       /\ combineCalendars Sample.parse ["A"; "B"] true Sample.store
          = Normal (combined, st')
       /\ Forall2
            (fun e a =>
               nextId Sample.store < cid a
               /\ map pid (properties a)
                  = map pid (firstProperties essentialProps e)
                      ++ [S (cid a)])
            (flat_map (fun t => getAllSubcomponents t "vevent")
               [Sample.calendarA; Sample.calendarB])
            (components combined)
       /\ sources = map strippedCalendar [Sample.calendarA; Sample.calendarB]
       /\ (forall i,
              In i (flat_map objIds sources) -> ~ In i (objIds combined)).
Proof.
  split; [reflexivity|]. split; [reflexivity|]. split; [reflexivity|].
  apply (obfuscation_moves_properties Sample.parse ["A"; "B"]
           [Sample.calendarA; Sample.calendarB]); reflexivity.
Defined.

(** * Further properties *)

(** ** Strings *)

Lemma split_not_nil : forall sep s, split sep s <> [].
Proof.
  intros sep s. destruct s as [|c rest]; simpl; [discriminate|].
  destruct (Ascii.eqb c sep); [discriminate|].
  destruct (split sep rest); discriminate.
Qed.

Lemma split_length :
  forall sep s, length (split sep s) = S (countChar sep s).
Proof.
  intros sep s. induction s as [|c rest IH]; simpl; [reflexivity|].
  destruct (Ascii.eqb c sep); simpl; [now rewrite IH|].
  destruct (split sep rest) as [|piece pieces] eqn:E; simpl in *;
    [discriminate|exact IH].
Qed.

Lemma split_pieces :
  forall sep s p, In p (split sep s) -> countChar sep p = 0.
Proof.
  intros sep s. induction s as [|c rest IH]; intros p; simpl.
  - intros [<-|[]]. reflexivity.
  - destruct (Ascii.eqb c sep) eqn:Ec; simpl.
    + intros [<-|H]; [reflexivity|now apply IH].
    + destruct (split sep rest) as [|piece pieces] eqn:E; simpl.
      * intros [<-|[]]. simpl. now rewrite Ec.
      * intros [<-|H].
        -- simpl. rewrite Ec. apply IH. now left.
        -- apply IH. now right.
Qed.

Lemma countChar_append :
  forall c s t,
    countChar c (s ++ t)%string = countChar c s + countChar c t.
Proof.
  intros c s t. induction s as [|a s IH]; simpl; [reflexivity|].
  rewrite IH. lia.
Qed.

Lemma append_nil_r : forall s, (s ++ "")%string = s.
Proof. induction s as [|a s IH]; simpl; [reflexivity|now rewrite IH]. Qed.

Lemma append_assoc :
  forall s t u, ((s ++ t) ++ u)%string = (s ++ (t ++ u))%string.
Proof.
  intros s t u. induction s as [|a s IH]; simpl; [reflexivity|].
  now rewrite IH.
Qed.

Lemma length_append :
  forall s t, String.length (s ++ t)%string = String.length s + String.length t.
Proof.
  intros s t. induction s as [|a s IH]; simpl; [reflexivity|now rewrite IH].
Qed.

Lemma reverse_append :
  forall s t, reverse (s ++ t)%string = (reverse t ++ reverse s)%string.
Proof.
  intros s t. induction s as [|a s IH]; simpl.
  - now rewrite append_nil_r.
  - now rewrite IH, append_assoc.
Qed.

Lemma reverse_reverse : forall s, reverse (reverse s) = s.
Proof.
  induction s as [|a s IH]; simpl; [reflexivity|].
  rewrite reverse_append. simpl. now rewrite IH.
Qed.

Lemma reverse_length : forall s, String.length (reverse s) = String.length s.
Proof.
  induction s as [|a s IH]; simpl; [reflexivity|].
  rewrite length_append, IH. simpl. lia.
Qed.

Section Dropping.

Variable w1 : ascii -> bool.
Variable w2 : ascii -> ascii -> bool.
Variable w3 : ascii -> ascii -> ascii -> bool.

Lemma dropOne_some :
  forall s rest,
    dropOne w1 w2 w3 s = Some rest ->
    exists w, s = (w ++ rest)%string /\ String.length rest < String.length s.
Proof.
  intros s rest. unfold dropOne.
  destruct s as [|a [|b [|c r3]]]; try discriminate.
  - destruct (w1 a); [|discriminate]. intros H. injection H as <-.
    exists (String a ""). split; [reflexivity|simpl; lia].
  - destruct (w1 a).
    + intros H. injection H as <-. exists (String a "").
      split; [reflexivity|simpl; lia].
    + destruct (w2 a b); [|discriminate]. intros H. injection H as <-.
      exists (String a (String b "")). split; [reflexivity|simpl; lia].
  - destruct (w1 a).
    + intros H. injection H as <-. exists (String a "").
      split; [reflexivity|simpl; lia].
    + destruct (w2 a b).
      * intros H. injection H as <-. exists (String a (String b "")).
        split; [reflexivity|simpl; lia].
      * destruct (w3 a b c); [|discriminate]. intros H. injection H as <-.
        exists (String a (String b (String c ""))).
        split; [reflexivity|simpl; lia].
Qed.

(** A string that starts with such a character still does with more
    text after it. *)
Lemma dropOne_append :
  forall s rest t,
    dropOne w1 w2 w3 s = Some rest ->
    dropOne w1 w2 w3 (s ++ t)%string = Some (rest ++ t)%string.
Proof.
  intros s rest t. unfold dropOne.
  destruct s as [|a [|b [|c r3]]]; try discriminate; simpl.
  - destruct (w1 a); [|discriminate]. intros H. now injection H as <-.
  - destruct (w1 a); [intros H; now injection H as <-|].
    destruct (w2 a b); [|discriminate]. intros H. now injection H as <-.
  - destruct (w1 a); [intros H; now injection H as <-|].
    destruct (w2 a b); [intros H; now injection H as <-|].
    destruct (w3 a b c); [|discriminate]. intros H. now injection H as <-.
Qed.

Lemma dropAll_suffix :
  forall n s, exists pre, s = (pre ++ dropAll w1 w2 w3 n s)%string.
Proof.
  induction n as [|n IH]; intros s; simpl; [now exists ""|].
  destruct (dropOne w1 w2 w3 s) as [rest|] eqn:E; [|now exists ""].
  destruct (dropOne_some s rest E) as [w [-> _]].
  destruct (IH rest) as [pre Hpre]. exists (w ++ pre)%string.
  now rewrite append_assoc, <- Hpre.
Qed.

Lemma dropAll_done :
  forall n s,
    String.length s <= n ->
    dropOne w1 w2 w3 (dropAll w1 w2 w3 n s) = None.
Proof.
  induction n as [|n IH]; intros s Hn; simpl.
  - destruct s; [reflexivity|simpl in Hn; lia].
  - destruct (dropOne w1 w2 w3 s) as [rest|] eqn:E; [|exact E].
    apply IH. destruct (dropOne_some s rest E) as [_ [_ Hl]]. lia.
Qed.

Lemma dropAll_nothing :
  forall n s, dropOne w1 w2 w3 s = None -> dropAll w1 w2 w3 n s = s.
Proof.
  intros [|n] s H; simpl; [reflexivity|now rewrite H].
Qed.

End Dropping.

Lemma trimStart_suffix : forall s, exists pre, s = (pre ++ trimStart s)%string.
Proof. intros s. apply dropAll_suffix. Qed.

Lemma trimEnd_prefix : forall s, exists post, s = (trimEnd s ++ post)%string.
Proof.
  intros s. unfold trimEnd.
  destruct (dropAll_suffix isWhiteSpace1 (fun a b => isWhiteSpace2 b a)
              (fun a b c => isWhiteSpace3 c b a) (String.length s) (reverse s))
    as [pre H].
  exists (reverse pre). rewrite <- reverse_append, <- H.
  now rewrite reverse_reverse.
Qed.

Lemma trim_inside :
  forall s, exists pre post, s = (pre ++ trim s ++ post)%string.
Proof.
  intros s. destruct (trimStart_suffix s) as [pre H].
  destruct (trimEnd_prefix (trimStart s)) as [post H'].
  exists pre, post. unfold trim. now rewrite <- H', <- H.
Qed.

Lemma trim_countChar :
  forall c s, countChar c s = 0 -> countChar c (trim s) = 0.
Proof.
  intros c s H. destruct (trim_inside s) as [pre [post E]].
  rewrite E, !countChar_append in H. lia.
Qed.

Lemma trimStart_done :
  forall s,
    dropOne isWhiteSpace1 isWhiteSpace2 isWhiteSpace3 (trimStart s) = None.
Proof. intros s. now apply dropAll_done. Qed.

Lemma trimEnd_done :
  forall s,
    dropOne isWhiteSpace1 (fun a b => isWhiteSpace2 b a)
      (fun a b c => isWhiteSpace3 c b a) (reverse (trimEnd s)) = None.
Proof.
  intros s. unfold trimEnd. rewrite reverse_reverse.
  apply dropAll_done. now rewrite reverse_length.
Qed.

(** Trimming the end does not uncover white space at the start. *)
Lemma trimEnd_keeps_start :
  forall s,
    dropOne isWhiteSpace1 isWhiteSpace2 isWhiteSpace3 s = None ->
    dropOne isWhiteSpace1 isWhiteSpace2 isWhiteSpace3 (trimEnd s) = None.
Proof.
  intros s H. destruct (trimEnd_prefix s) as [post E].
  destruct (dropOne isWhiteSpace1 isWhiteSpace2 isWhiteSpace3 (trimEnd s))
    as [rest|] eqn:D; [|reflexivity].
  apply (dropOne_append _ _ _ _ _ post) in D. rewrite <- E in D. congruence.
Qed.

Lemma trim_trim : forall s, trim (trim s) = trim s.
Proof.
  intros s. unfold trim at 1.
  assert (trimStart (trim s) = trim s) as ->.
  { unfold trimStart at 1. apply dropAll_nothing. unfold trim.
    apply trimEnd_keeps_start, trimStart_done. }
  unfold trimEnd at 1. rewrite dropAll_nothing.
  - apply reverse_reverse.
  - unfold trim. apply trimEnd_done.
Qed.

Lemma split_concat :
  forall sep ps,
    ps <> [] ->
    (forall p, In p ps -> countChar sep p = 0) ->
    split sep (String.concat (String sep "") ps) = ps.
Proof.
  intros sep ps. induction ps as [|p ps IH]; intros Hne Hp; [congruence|].
  assert (forall q t,
             countChar sep q = 0 ->
             split sep (q ++ String sep t)%string = q :: split sep t) as Hq.
  { induction q as [|a q IHq]; intros t Hc; simpl.
    - now rewrite Ascii.eqb_refl.
    - simpl in Hc. destruct (Ascii.eqb a sep); [discriminate|].
      now rewrite IHq. }
  assert (forall q, countChar sep q = 0 -> split sep q = [q]) as Hone.
  { induction q as [|a q IHq]; intros Hc; simpl; [reflexivity|].
    simpl in Hc. destruct (Ascii.eqb a sep); [discriminate|].
    now rewrite IHq. }
  destruct ps as [|p' ps].
  - simpl. apply Hone, Hp. now left.
  - change (String.concat (String sep "") (p :: p' :: ps))
      with (p ++ String sep (String.concat (String sep "") (p' :: ps)))%string.
    rewrite Hq by (apply Hp; now left). f_equal.
    apply IH; [discriminate|]. intros q Hin. apply Hp. now right.
Qed.

(** ** getCalendarUrls *)

(** X1.  An unset or empty CALENDAR_URLS gives no URL; any other value
    gives one entry more than it has commas, empty entries included. *)
Theorem getCalendarUrls_count :
  forall env,
    length (getCalendarUrls env)
    = match env with
      | None => 0
      | Some urlString =>
          if urlString =? "" then 0 else S (countChar "," urlString)
      end.
Proof.
  intros [urlString|]; [|reflexivity]. unfold getCalendarUrls.
  destruct (urlString =? ""); [reflexivity|].
  now rewrite length_map, split_length.
Qed.

(** X2.  No URL [getCalendarUrls] returns contains a comma, and each is
    trimmed: trimming it again changes nothing. *)
Theorem getCalendarUrls_entries :
  forall env url,
    In url (getCalendarUrls env) ->
    countChar "," url = 0 /\ trim url = url.
Proof.
  intros [urlString|] url; [|intros []]. unfold getCalendarUrls.
  destruct (urlString =? ""); [intros []|].
  intros H. apply in_map_iff in H. destruct H as [p [<- Hp]].
  split; [|apply trim_trim].
  apply trim_countChar. eapply split_pieces, Hp.
Qed.

(** X3.  A CALENDAR_URLS made of entries joined by commas, the entries
    free of commas and the whole not empty, gives back the entries, each
    trimmed, in their order. *)
Theorem getCalendarUrls_of_joined :
  forall entries,
    (String.concat "," entries =? "") = false ->
    forallb (fun p => countChar "," p =? 0)%nat entries = true ->
    getCalendarUrls (Some (String.concat "," entries)) = map trim entries.
Proof.
  intros entries Hne Hc. unfold getCalendarUrls. rewrite Hne. f_equal.
  apply (split_concat ","%char).
  - intros ->. discriminate.
  - intros p Hp. rewrite forallb_forall in Hc. now apply Nat.eqb_eq, Hc.
Qed.

(** X4.  The check of [main] on the URLs passes exactly when
    CALENDAR_URLS holds a comma; what stands around the comma does not
    matter, empty entries count. *)
Theorem requireTwoUrls_needs_comma :
  forall env,
    requireTwoUrls (getCalendarUrls env)
    = if match env with
         | Some urlString => negb (countChar "," urlString =? 0)%nat
         | None => false
         end
      then Normal tt
      else Throw (Error "At least two calendar URLs are required").
Proof.
  intros env. unfold requireTwoUrls. rewrite getCalendarUrls_count.
  destruct env as [urlString|]; [|reflexivity].
  destruct (urlString =? "") eqn:E.
  - apply String.eqb_eq in E. now subst.
  - now destruct (countChar "," urlString).
Qed.

Lemma getCalendarUrls_entries_witness :
  In "https://b.example/b.ics"
    (getCalendarUrls (Some " https://a.example/a.ics , https://b.example/b.ics"))
  /\ countChar "," "https://b.example/b.ics" = 0
  /\ trim "https://b.example/b.ics" = "https://b.example/b.ics".
Proof.
  split; [right; left; reflexivity|].
  apply (getCalendarUrls_entries
           (Some " https://a.example/a.ics , https://b.example/b.ics")).
  right. left. reflexivity.
Defined.

Lemma getCalendarUrls_of_joined_witness :
  (String.concat "," ["https://a.example/a.ics"; " https://b.example/b.ics "; ""]
   =? "") = false
  /\ forallb (fun p => countChar "," p =? 0)%nat
       ["https://a.example/a.ics"; " https://b.example/b.ics "; ""] = true
  /\ getCalendarUrls
       (Some (String.concat ","
                ["https://a.example/a.ics"; " https://b.example/b.ics "; ""]))
     = map trim ["https://a.example/a.ics"; " https://b.example/b.ics "; ""].
Proof.
  split; [reflexivity|]. split; [reflexivity|].
  apply getCalendarUrls_of_joined; reflexivity.
Defined.

(** ** main *)

Lemma appended_In :
  forall obfuscate events k a,
    In a (appended obfuscate k events) ->
    exists e i, In e events /\ a = perEvent obfuscate i e.
Proof.
  intros ob events k a Ha.
  destruct (Forall2_right_in _ _ _ (appended_Forall2 ob events k) a Ha)
    as [e [He [i Hi]]].
  now exists e, i.
Qed.

(** The properties of a redacted event, whatever the identities in the
    source. *)
Lemma redacted_property_names :
  forall id e p,
    In p (properties (perEvent true id e)) ->
    In (pname p) (essentialProps ++ ["summary"])
    /\ (pname p = "summary" -> p = busySummary (S id)).
Proof.
  intros id e p Hp. split.
  - apply (in_map pname) in Hp. unfold perEvent in Hp.
    rewrite zoned_names in Hp. unfold redactedAs in Hp.
    cbn [properties] in Hp. rewrite map_app in Hp.
    apply in_app_iff in Hp. apply in_app_iff.
    destruct Hp as [Hp|Hp]; [left|right; exact Hp].
    apply in_map_iff in Hp. destruct Hp as [q [<- Hq]].
    eapply copied_names, Hq.
  - intros Hs. unfold perEvent in Hp.
    apply zoned_other_properties in Hp; [|rewrite Hs; discriminate].
    apply redacted_properties in Hp. destruct Hp as [Hp|[_ Hp]]; [exact Hp|].
    rewrite Hs in Hp. simpl in Hp. intuition discriminate.
Qed.

Lemma parseAll_throws_combine :
  forall parse obfuscate calendars st e,
    parseAll parse calendars = Throw e ->
    combineCalendars parse calendars obfuscate st = Throw e.
Proof.
  intros parse ob calendars st e H.
  unfold combineCalendars, combineCalendarsAndSources, newComponent, fresh.
  unfold bind at 1. unfold bind at 1. unfold bind at 1. unfold ret at 1.
  now rewrite (forEachCalendar_throws parse ob calendars e _ _ H).
Qed.

Lemma combineCalendars_normal :
  forall parse obfuscate calendars st combined st',
    combineCalendars parse calendars obfuscate st = Normal (combined, st') ->
    exists trees, parseAll parse calendars = Normal trees.
Proof.
  intros parse ob calendars st combined st' H.
  destruct (parseAll parse calendars) as [trees|e] eqn:E;
    [now exists trees|].
  rewrite (parseAll_throws_combine parse ob calendars st e E) in H.
  discriminate.
Qed.

Section MainLemmas.

Variable BUCKET_NAME : option string.
Variable CALENDAR_URLS : option string.
Variable fetch : string -> Completion HttpResponse.
Variable firstRejected : list Exception -> Exception.
Variable parse : string -> Completion Component.
Variable stringify : Component -> string.
Variable putObject : PutObjectParams -> Completion unit.
Variable heap : Store.

Local Abbreviation mainTry' :=
  (mainTry BUCKET_NAME CALENDAR_URLS fetch firstRejected parse stringify
     putObject heap).
Local Abbreviation main' :=
  (main BUCKET_NAME CALENDAR_URLS fetch firstRejected parse stringify
     putObject heap).

Lemma downloads_issued :
  forall urls, flat_map fst (map (downloadCalendar fetch) urls) = map Fetch urls.
Proof.
  induction urls as [|u urls IH]; simpl; [reflexivity|now rewrite IH].
Qed.

(** The [try] block, stage by stage. *)
Lemma mainTry_stages :
  forall a obfuscate,
    mainTry' a obfuscate
    = match BUCKET_NAME with
      | None =>
          ([], Throw (Error "BUCKET_NAME environment variable is not set"))
      | Some bucketName =>
          if bucketName =? ""
          then ([], Throw (Error "BUCKET_NAME environment variable is not set"))
          else
            let urls := getCalendarUrls CALENDAR_URLS in
            let outcomes := map snd (map (downloadCalendar fetch) urls) in
            if (length urls <? 2)%nat
            then ([], Throw (Error "At least two calendar URLs are required"))
            else
              match rejections outcomes with
              | e :: es => (map Fetch urls, Throw (firstRejected (e :: es)))
              | [] =>
                  match combineCalendars parse (fulfilled outcomes)
                          obfuscate heap with
                  | Throw e => (map Fetch urls, Throw e)
                  | Normal (combined, _) =>
                      let params :=
                        mkPutObjectParams bucketName (outputKey a)
                          (stringify combined) "text/calendar" "public-read" in
                      (map Fetch urls ++ [PutObject params], putObject params)
                  end
              end
      end.
Proof.
  intros a ob. unfold mainTry. destruct BUCKET_NAME as [b|]; [|reflexivity].
  destruct (b =? ""); [reflexivity|].
  unfold requireTwoUrls.
  destruct (length (getCalendarUrls CALENDAR_URLS) <? 2)%nat; [reflexivity|].
  cbn [ioLift ioBind app]. unfold promiseAll. rewrite downloads_issued.
  destruct (rejections _) as [|e es]; [|reflexivity].
  cbn [ioBind ioLift app].
  destruct (combineCalendars parse _ ob heap) as [[combined st']|e].
  - reflexivity.
  - now rewrite app_nil_r.
Qed.

Lemma rejections_nil :
  forall {A} (outcomes : list (Completion A)),
    rejections outcomes = [] -> outcomes = map Normal (fulfilled outcomes).
Proof.
  intros A outcomes. induction outcomes as [|[x|e] l IH]; simpl; intros H.
  - reflexivity.
  - f_equal. now apply IH.
  - discriminate.
Qed.

(** X5.  A missing or empty BUCKET_NAME, or fewer than two URLs, ends
    [main] with status 500 and the message of that check before any
    request is issued: nothing is fetched, nothing is uploaded. *)
Theorem main_checks_configuration_first :
  forall a,
    match BUCKET_NAME with
    | Some bucketName => negb (bucketName =? "")
    | None => false
    end
    && (2 <=? length (getCalendarUrls CALENDAR_URLS))%nat = false ->
    main' (Some a)
    = ([],
       Normal
         (mkResponse
            (match BUCKET_NAME with
             | None => "Error: BUCKET_NAME environment variable is not set"
             | Some bucketName =>
                 if bucketName =? ""
                 then "Error: BUCKET_NAME environment variable is not set"
                 else "Error: At least two calendar URLs are required"
             end)
            500)).
Proof.
  intros a H. unfold main. rewrite mainTry_stages.
  destruct BUCKET_NAME as [b|]; [|reflexivity].
  destruct (b =? ""); [reflexivity|]. cbn [negb andb] in H.
  cbv zeta.
  destruct (length (getCalendarUrls CALENDAR_URLS) <? 2)%nat eqn:E;
    [reflexivity|].
  apply Nat.ltb_ge in E. apply Nat.leb_gt in H. lia.
Qed.

(** X6.  [main] uploads only after every stage before succeeded, once,
    and last: when a putObject is issued, the bucket is configured, every
    URL was downloaded, the texts were combined under the flag of the
    call, and the object is the serialized combination, sent to that
    bucket under [outputKey] as text/calendar, publicly readable. *)
Theorem main_uploads_the_combination :
  forall a params,
    In (PutObject params) (fst (main' (Some a))) ->
    exists bucketName calendars combined st',
      BUCKET_NAME = Some bucketName
      /\ bucketName <> ""
      /\ map snd (map (downloadCalendar fetch)
                    (getCalendarUrls CALENDAR_URLS))
         = map Normal calendars
      /\ combineCalendars parse calendars (isTrue (obfuscateArg a)) heap
         = Normal (combined, st')
      /\ params
         = mkPutObjectParams bucketName (outputKey a) (stringify combined)
             "text/calendar" "public-read"
      /\ fst (main' (Some a))
         = map Fetch (getCalendarUrls CALENDAR_URLS) ++ [PutObject params].
Proof.
  intros a params. unfold main. rewrite mainTry_stages.
  assert (forall urls, ~ In (PutObject params) (map Fetch urls)) as Hno.
  { intros urls Hin. apply in_map_iff in Hin.
    destruct Hin as [u [Hu _]]. discriminate. }
  destruct BUCKET_NAME as [b|]; [|intros []].
  destruct (b =? "") eqn:Eb; [intros []|]. cbv zeta.
  destruct (length (getCalendarUrls CALENDAR_URLS) <? 2)%nat; [intros []|].
  destruct (rejections _) as [|e es] eqn:Er;
    [|intros H; cbn [fst] in H; now apply Hno in H].
  destruct (combineCalendars parse _ (isTrue (obfuscateArg a)) heap)
    as [[combined st']|e] eqn:Ec.
  - intros H.
    assert (In (PutObject params)
              (map Fetch (getCalendarUrls CALENDAR_URLS)
                 ++ [PutObject
                       (mkPutObjectParams b (outputKey a) (stringify combined)
                          "text/calendar" "public-read")])) as H'.
    { destruct (putObject _); exact H. }
    apply in_app_iff in H'. destruct H' as [H'|[H'|[]]];
      [now apply Hno in H'|].
    injection H' as <-.
    exists b, (fulfilled (map snd (map (downloadCalendar fetch)
                                     (getCalendarUrls CALENDAR_URLS)))),
      combined, st'.
    split; [reflexivity|]. split; [now apply String.eqb_neq|].
    split; [now apply rejections_nil|]. split; [exact Ec|].
    split; [reflexivity|]. now destruct (putObject _).
  - intros H. cbn [fst] in H. now apply Hno in H.
Qed.

Lemma rejections_of_fulfilled :
  forall {A} (values : list A), rejections (map Normal values) = [].
Proof.
  intros A values. induction values as [|v l IH]; simpl; [reflexivity|exact IH].
Qed.

Lemma fulfilled_of_fulfilled :
  forall {A} (values : list A), fulfilled (map Normal values) = values.
Proof.
  intros A values. induction values as [|v l IH]; simpl; [reflexivity|].
  now rewrite IH.
Qed.

(** X7.  Once the configuration is in order and every download is
    fulfilled, the answer of [main] is that of the two stages left.  When
    [combineCalendars] throws, status 500 with "Error: " and the message
    of the exception it threw, and nothing is uploaded.  When it returns,
    the putObject is issued: status 200 with the success message if the
    upload succeeds, status 500 with "Error: " and the message of the
    rejection of the upload if it fails. *)
Theorem main_answers_for_combine_and_upload :
  forall a bucketName calendars,
    BUCKET_NAME = Some bucketName ->
    (bucketName =? "") = false ->
    (2 <=? length (getCalendarUrls CALENDAR_URLS))%nat = true ->
    map snd (map (downloadCalendar fetch) (getCalendarUrls CALENDAR_URLS))
    = map Normal calendars ->
    main' (Some a)
    = match combineCalendars parse calendars (isTrue (obfuscateArg a)) heap
      with
      | Throw e =>
          (map Fetch (getCalendarUrls CALENDAR_URLS),
           Normal (mkResponse ("Error: " ++ message e)%string 500))
      | Normal (combined, _) =>
          let params :=
            mkPutObjectParams bucketName (outputKey a) (stringify combined)
              "text/calendar" "public-read" in
          (map Fetch (getCalendarUrls CALENDAR_URLS) ++ [PutObject params],
           Normal
             match putObject params with
             | Normal _ =>
                 mkResponse "Calendars combined and uploaded successfully" 200
             | Throw e => mkResponse ("Error: " ++ message e)%string 500
             end)
      end.
Proof.
  intros a b calendars Hb Hne Hlen Hd.
  unfold main. rewrite mainTry_stages, Hb, Hne. cbv zeta.
  assert ((length (getCalendarUrls CALENDAR_URLS) <? 2)%nat = false) as ->.
  { apply Nat.ltb_ge. now apply Nat.leb_le in Hlen. }
  rewrite Hd, rejections_of_fulfilled, fulfilled_of_fulfilled.
  destruct (combineCalendars parse calendars (isTrue (obfuscateArg a)) heap)
    as [[combined st']|e]; [|reflexivity].
  now destruct (putObject _).
Qed.

(** X8.  With the configuration in order, [main] requests every
    configured URL once, in the configured order, before anything else,
    also when a download fails; and a failed download ends it with status
    500 and the message of the first rejection, without any upload. *)
Theorem main_fetches_every_url :
  forall a bucketName,
    BUCKET_NAME = Some bucketName ->
    (bucketName =? "") = false ->
    (2 <=? length (getCalendarUrls CALENDAR_URLS))%nat = true ->
    (exists rest,
        fst (main' (Some a))
        = map Fetch (getCalendarUrls CALENDAR_URLS) ++ rest
        /\ (rest = [] \/ exists params, rest = [PutObject params]))
    /\ (forall e es,
           rejections (map snd (map (downloadCalendar fetch)
                                  (getCalendarUrls CALENDAR_URLS)))
           = e :: es ->
           main' (Some a)
           = (map Fetch (getCalendarUrls CALENDAR_URLS),
              Normal
                (mkResponse
                   ("Error: " ++ message (firstRejected (e :: es)))%string
                   500))).
Proof.
  intros a b Hb Hne Hlen. unfold main. rewrite mainTry_stages, Hb, Hne.
  cbv zeta.
  assert ((length (getCalendarUrls CALENDAR_URLS) <? 2)%nat = false) as ->.
  { apply Nat.ltb_ge. now apply Nat.leb_le in Hlen. }
  split.
  - destruct (rejections _) as [|e es];
      [|exists []; rewrite app_nil_r; split; [reflexivity|now left]].
    destruct (combineCalendars parse _ (isTrue (obfuscateArg a)) heap)
      as [[combined st']|e];
      [|exists []; rewrite app_nil_r; split; [reflexivity|now left]].
    eexists. split; [destruct (putObject _); reflexivity|].
    right. now eexists.
  - intros e es ->. reflexivity.
Qed.

(** X9.  When the call asks for obfuscation ([args.obfuscate] is true or
    "true"), whatever [main] uploads is the serialization of a calendar
    whose every component is a vevent without subcomponent, holding only
    properties named dtstart, dtend, duration, rrule, uid or summary, the
    summary being "BUSY". *)
Theorem main_uploads_only_redacted_events :
  forall a params,
    isTrue (obfuscateArg a) = true ->
    In (PutObject params) (fst (main' (Some a))) ->
    exists combined,
      Body params = stringify combined
      /\ forall ev,
          In ev (components combined) ->
          cname ev = "vevent"
          /\ components ev = []
          /\ forall p,
              In p (properties ev) ->
              In (pname p)
                ["dtstart"; "dtend"; "duration"; "rrule"; "uid"; "summary"]
              /\ (pname p = "summary" -> pvalues p = [VString "BUSY"]).
Proof.
  intros a params Ht Hin.
  destruct (main_uploads_the_combination a params Hin)
    as [b [calendars [combined [st' [_ [_ [_ [Hc [-> _]]]]]]]]].
  rewrite Ht in Hc. exists combined. split; [reflexivity|].
  destruct (combineCalendars_normal parse true calendars heap combined st' Hc)
    as [trees Htrees].
  rewrite (combineCalendars_spec parse true calendars trees heap Htrees) in Hc.
  injection Hc as <- _. cbn [components]. intros ev Hev.
  apply appended_In in Hev. destruct Hev as [e [i [_ ->]]].
  split; [unfold perEvent; now rewrite zoned_cname|]. split.
  - unfold perEvent. now rewrite zoned_components.
  - intros p Hp. destruct (redacted_property_names i e p Hp) as [Hn Hs].
    split; [exact Hn|]. intros Hsum. now rewrite (Hs Hsum).
Qed.

(** X10.  Obfuscation is on only for the boolean true and the string
    "true": for any other [args.obfuscate] (absent, false, "TRUE", "1")
    what [main] uploads is the serialization of the combination made
    without obfuscation. *)
Theorem main_obfuscates_only_on_true :
  forall a params,
    obfuscateArg a <> JBoolean true ->
    obfuscateArg a <> JString "true" ->
    In (PutObject params) (fst (main' (Some a))) ->
    exists calendars combined st',
      map snd (map (downloadCalendar fetch) (getCalendarUrls CALENDAR_URLS))
      = map Normal calendars
      /\ combineCalendars parse calendars false heap = Normal (combined, st')
      /\ Body params = stringify combined.
Proof.
  intros a params Hb Hs Hin.
  destruct (main_uploads_the_combination a params Hin)
    as [b [calendars [combined [st' [_ [_ [Hd [Hc [-> _]]]]]]]]].
  assert (isTrue (obfuscateArg a) = false) as E.
  { unfold isTrue. destruct (obfuscateArg a) as [|[|]|s|]; try reflexivity.
    - congruence.
    - apply String.eqb_neq. congruence. }
  rewrite E in Hc. now exists calendars, combined, st'.
Qed.

End MainLemmas.

Lemma main_checks_configuration_first_witness :
  match @None string with
  | Some bucketName => negb (bucketName =? "")
  | None => false
  end
  && (2 <=? length (getCalendarUrls Deployment.CALENDAR_URLS))%nat = false
  /\ main None Deployment.CALENDAR_URLS Deployment.fetch
       Deployment.firstRejected Sample.parse Deployment.stringify
       Deployment.putObject Sample.store (Some Deployment.args)
     = ([],
        Normal
          (mkResponse "Error: BUCKET_NAME environment variable is not set"
             500)).
Proof.
  split; [reflexivity|].
  apply (main_checks_configuration_first None Deployment.CALENDAR_URLS
           Deployment.fetch Deployment.firstRejected Sample.parse
           Deployment.stringify Deployment.putObject Sample.store
           Deployment.args).
  reflexivity.
Defined.

Lemma main_uploads_the_combination_witness :
  In (PutObject Deployment.uploaded)
    (fst (Deployment.run (Some Deployment.args)))
  /\ exists bucketName calendars combined st',
       Deployment.BUCKET_NAME = Some bucketName
       /\ bucketName <> ""
       /\ map snd (map (downloadCalendar Deployment.fetch)
                     (getCalendarUrls Deployment.CALENDAR_URLS))
          = map Normal calendars
       /\ combineCalendars Sample.parse calendars
            (isTrue (obfuscateArg Deployment.args)) Sample.store
          = Normal (combined, st')
       /\ Deployment.uploaded
          = mkPutObjectParams bucketName (outputKey Deployment.args)
              (Deployment.stringify combined) "text/calendar" "public-read"
       /\ fst (Deployment.run (Some Deployment.args))
          = map Fetch (getCalendarUrls Deployment.CALENDAR_URLS)
              ++ [PutObject Deployment.uploaded].
Proof.
  split; [right; right; left; reflexivity|].
  apply (main_uploads_the_combination Deployment.BUCKET_NAME
           Deployment.CALENDAR_URLS Deployment.fetch Deployment.firstRejected
           Sample.parse Deployment.stringify Deployment.putObject Sample.store
           Deployment.args Deployment.uploaded).
  right. right. left. reflexivity.
Defined.

Lemma main_answers_for_combine_and_upload_witness :
  Deployment.BUCKET_NAME = Some "calendars"
  /\ ("calendars" =? "") = false
  /\ (2 <=? length (getCalendarUrls Deployment.CALENDAR_URLS))%nat = true
  /\ map snd (map (downloadCalendar Deployment.fetch)
                (getCalendarUrls Deployment.CALENDAR_URLS))
     = map Normal ["A"; "B"]
  /\ Deployment.run (Some Deployment.args)
     = match combineCalendars Sample.parse ["A"; "B"]
               (isTrue (obfuscateArg Deployment.args)) Sample.store
       with
       | Throw e =>
           (map Fetch (getCalendarUrls Deployment.CALENDAR_URLS),
            Normal (mkResponse ("Error: " ++ message e)%string 500))
       | Normal (combined, _) =>
           let params :=
             mkPutObjectParams "calendars" (outputKey Deployment.args)
               (Deployment.stringify combined) "text/calendar" "public-read" in
           (map Fetch (getCalendarUrls Deployment.CALENDAR_URLS)
              ++ [PutObject params],
            Normal
              match Deployment.putObject params with
              | Normal _ =>
                  mkResponse "Calendars combined and uploaded successfully"
                    200
              | Throw e => mkResponse ("Error: " ++ message e)%string 500
              end)
       end.
Proof.
  split; [reflexivity|]. split; [reflexivity|]. split; [reflexivity|].
  split; [reflexivity|].
  apply (main_answers_for_combine_and_upload Deployment.BUCKET_NAME
           Deployment.CALENDAR_URLS Deployment.fetch Deployment.firstRejected
           Sample.parse Deployment.stringify Deployment.putObject Sample.store
           Deployment.args "calendars" ["A"; "B"]); reflexivity.
Defined.

Lemma main_fetches_every_url_witness :
  Deployment.BUCKET_NAME = Some "calendars"
  /\ ("calendars" =? "") = false
  /\ (2 <=? length (getCalendarUrls Deployment.CALENDAR_URLS))%nat = true
  /\ (exists rest,
         fst (Deployment.run (Some Deployment.args))
         = map Fetch (getCalendarUrls Deployment.CALENDAR_URLS) ++ rest
         /\ (rest = [] \/ exists params, rest = [PutObject params]))
  /\ (forall e es,
         rejections (map snd (map (downloadCalendar Deployment.fetch)
                                (getCalendarUrls Deployment.CALENDAR_URLS)))
         = e :: es ->
         Deployment.run (Some Deployment.args)
         = (map Fetch (getCalendarUrls Deployment.CALENDAR_URLS),
            Normal
              (mkResponse
                 ("Error: "
                    ++ message (Deployment.firstRejected (e :: es)))%string
                 500))).
Proof.
  split; [reflexivity|]. split; [reflexivity|]. split; [reflexivity|].
  apply (main_fetches_every_url Deployment.BUCKET_NAME
           Deployment.CALENDAR_URLS Deployment.fetch Deployment.firstRejected
           Sample.parse Deployment.stringify Deployment.putObject Sample.store
           Deployment.args "calendars"); reflexivity.
Defined.

Lemma main_uploads_only_redacted_events_witness :
  isTrue (obfuscateArg Deployment.args) = true
  /\ In (PutObject Deployment.uploaded)
       (fst (Deployment.run (Some Deployment.args)))
  /\ exists combined,
       Body Deployment.uploaded = Deployment.stringify combined
       /\ forall ev,
           In ev (components combined) ->
           cname ev = "vevent"
           /\ components ev = []
           /\ forall p,
               In p (properties ev) ->
               In (pname p)
                 ["dtstart"; "dtend"; "duration"; "rrule"; "uid"; "summary"]
               /\ (pname p = "summary" -> pvalues p = [VString "BUSY"]).
Proof.
  split; [reflexivity|]. split; [right; right; left; reflexivity|].
  apply (main_uploads_only_redacted_events Deployment.BUCKET_NAME
           Deployment.CALENDAR_URLS Deployment.fetch Deployment.firstRejected
           Sample.parse Deployment.stringify Deployment.putObject Sample.store
           Deployment.args Deployment.uploaded).
  - reflexivity.
  - right. right. left. reflexivity.
Defined.

Lemma main_obfuscates_only_on_true_witness :
  obfuscateArg Deployment.argsCapitals <> JBoolean true
  /\ obfuscateArg Deployment.argsCapitals <> JString "true"
  /\ In (PutObject Deployment.uploadedPlain)
       (fst (Deployment.run (Some Deployment.argsCapitals)))
  /\ exists calendars combined st',
       map snd (map (downloadCalendar Deployment.fetch)
                  (getCalendarUrls Deployment.CALENDAR_URLS))
       = map Normal calendars
       /\ combineCalendars Sample.parse calendars false Sample.store
          = Normal (combined, st')
       /\ Body Deployment.uploadedPlain = Deployment.stringify combined.
Proof.
  split; [discriminate|]. split; [discriminate|].
  split; [right; right; left; reflexivity|].
  apply (main_obfuscates_only_on_true Deployment.BUCKET_NAME
           Deployment.CALENDAR_URLS Deployment.fetch Deployment.firstRejected
           Sample.parse Deployment.stringify Deployment.putObject Sample.store
           Deployment.argsCapitals Deployment.uploadedPlain).
  - discriminate.
  - discriminate.
  - right. right. left. reflexivity.
Defined.

(** ** More on combineCalendars *)

Lemma parseAll_app_throw :
  forall parse good bad rest trees e,
    parseAll parse good = Normal trees ->
    parse bad = Throw e ->
    parseAll parse (good ++ bad :: rest) = Throw e.
Proof.
  intros parse good. induction good as [|g gs IH];
    intros bad rest trees e Hg Hb.
  - simpl. now rewrite Hb.
  - apply parseAll_cons in Hg. destruct Hg as [t [ts [_ [Ht Hts]]]].
    simpl. rewrite Ht, (IH bad rest ts e Hts Hb). reflexivity.
Qed.

Lemma parseAll_app :
  forall parse xs ys tx ty,
    parseAll parse xs = Normal tx ->
    parseAll parse ys = Normal ty ->
    parseAll parse (xs ++ ys) = Normal (tx ++ ty).
Proof.
  intros parse xs. induction xs as [|x xs IH]; intros ys tx ty Hx Hy.
  - simpl in Hx. injection Hx as <-. exact Hy.
  - apply parseAll_cons in Hx. destruct Hx as [t [ts [-> [Ht Hts]]]].
    simpl. now rewrite Ht, (IH ys ts ty Hts Hy).
Qed.

Lemma zonedProperties_params :
  forall ps, map pparams (zonedProperties ps) = map pparams ps.
Proof.
  intros ps. unfold zonedProperties. destruct (_ && _); [|reflexivity].
  induction ps as [|p ps IH]; simpl; [reflexivity|].
  destruct (pname p =? "dtstart"); simpl; [reflexivity|now rewrite IH].
Qed.

Lemma find_other_onFirst :
  forall (f : Property -> Property) name other ps,
    (forall p, pname (f p) = pname p) ->
    other <> name ->
    find (fun p => pname p =? other) (onFirst (fun p => pname p =? name) f ps)
    = find (fun p => pname p =? other) ps.
Proof.
  intros f name other ps Hf Hn. induction ps as [|p ps IH]; simpl;
    [reflexivity|].
  destruct (pname p =? name) eqn:E; simpl.
  - rewrite Hf. apply String.eqb_eq in E.
    assert ((pname p =? other) = false) as ->; [|reflexivity].
    apply String.eqb_neq. congruence.
  - now rewrite IH.
Qed.

Lemma zoned_other_first :
  forall c n,
    n <> "dtstart" -> getFirstProperty (zoned c) n = getFirstProperty c n.
Proof.
  intros c n Hn. unfold getFirstProperty. rewrite zoned_properties.
  unfold zonedProperties. destruct (_ && _); [|reflexivity].
  now apply find_other_onFirst.
Qed.

Lemma find_in_firsts :
  forall names e n tail,
    NoDup names -> In n names ->
    find (fun p => pname p =? n) (firstProperties names e ++ tail)
    = match getFirstProperty e n with
      | Some p => Some p
      | None => find (fun p => pname p =? n) tail
      end.
Proof.
  induction names as [|a rest IH]; intros e n tail Hnd Hin; [destruct Hin|].
  inversion Hnd as [|? ? Ha Hrest]; subst.
  unfold firstProperties. cbn [flat_map]. fold (firstProperties rest e).
  destruct (String.eqb_spec a n) as [->|Hne].
  - destruct (getFirstProperty e n) as [p|] eqn:Hf.
    + cbn [app find]. apply find_some in Hf. destruct Hf as [_ Hf].
      now rewrite Hf.
    + cbn [app]. apply find_app_none. rewrite firstProperties_names.
      intros H. apply filter_In in H. tauto.
  - destruct Hin as [Hin|Hin]; [contradiction|].
    destruct (getFirstProperty e a) as [p|] eqn:Hf.
    + cbn [app find]. apply find_some in Hf. destruct Hf as [_ Hf].
      apply String.eqb_eq in Hf. rewrite Hf.
      apply String.eqb_neq in Hne. rewrite Hne. now apply IH.
    + cbn [app]. now apply IH.
Qed.

Lemma filter_by_name :
  forall n (ps : list Property),
    length (filter (fun p => pname p =? n) ps)
    = length (filter (fun m => m =? n) (map pname ps)).
Proof.
  intros n ps. induction ps as [|p ps IH]; simpl; [reflexivity|].
  destruct (pname p =? n); simpl; now rewrite IH.
Qed.

Lemma filter_name_absent :
  forall (g : string -> bool) names n,
    ~ In n names ->
    filter (fun m => m =? n) (filter g names) = [].
Proof.
  intros g names n. induction names as [|x rest IH]; simpl; intros Ha;
    [reflexivity|].
  assert (~ In n rest) as Hr by (intros H; apply Ha; now right).
  destruct (g x); simpl; [|now apply IH].
  destruct (String.eqb_spec x n) as [->|_]; [|now apply IH].
  exfalso. apply Ha. now left.
Qed.

Lemma filter_name_of_filtered :
  forall (g : string -> bool) names n,
    NoDup names -> In n names ->
    length (filter (fun m => m =? n) (filter g names))
    = if g n then 1 else 0.
Proof.
  intros g names n. induction names as [|a rest IH]; intros Hnd Hin;
    [destruct Hin|].
  inversion Hnd as [|? ? Ha Hrest]; subst. simpl.
  destruct (String.eqb_spec a n) as [->|Hne].
  - destruct (g n); simpl; [rewrite String.eqb_refl; simpl|];
      now rewrite (filter_name_absent g rest n Ha).
  - destruct Hin as [Hin|Hin]; [contradiction|].
    destruct (g a); simpl.
    + apply String.eqb_neq in Hne. rewrite Hne. now apply IH.
    + now apply IH.
Qed.

Lemma perEvent_content :
  forall obfuscate i j e,
    contentOf (perEvent obfuscate i e) = contentOf (perEvent obfuscate j e).
Proof.
  intros [|] i j e; [|reflexivity]. unfold perEvent.
  rewrite !(contentOf_eq (zoned _)), !zoned_cname, !zoned_components,
    !zoned_properties.
  cbn [cname components properties redactedAs].
  rewrite !zonedProperties_snoc by reflexivity.
  now rewrite !map_app.
Qed.

Lemma appended_content :
  forall obfuscate events i j,
    map contentOf (appended obfuscate i events)
    = map contentOf (appended obfuscate j events).
Proof.
  intros ob events. induction events as [|e rest IH]; intros i j; simpl;
    [reflexivity|].
  now rewrite (perEvent_content ob i j e),
    (IH (afterEvent ob i) (afterEvent ob j)).
Qed.

Section MoreOnCombine.

Variable parse : string -> Completion Component.

(** X12.  Obfuscation keeps the first dtend, duration, rrule and uid of
    an event as they are, values and parameters included, and at most
    one property of each essential name: a second RRULE or DTSTART line
    of an event is not carried over. *)
Theorem obfuscation_keeps_first_of_each_name :
  forall calendars trees st,
    parseAll parse calendars = Normal trees ->
    forallb (fun e => distinct (map pid (properties e)))
      (flat_map (fun t => getAllSubcomponents t "vevent") trees) = true ->
    exists combined st',
      combineCalendars parse calendars true st = Normal (combined, st')
      /\ Forall2
           (fun e a =>
              forall n,
                In n essentialProps ->
                length (filter (fun p => pname p =? n) (properties a))
                = (if isSome (getFirstProperty e n) then 1 else 0)
                /\ (n <> "dtstart" ->
                    getFirstProperty a n = getFirstProperty e n))
           (flat_map (fun t => getAllSubcomponents t "vevent") trees)
           (components combined).
Proof.
  intros calendars trees st H Hd.
  eexists. eexists. split; [apply combineCalendars_spec, H|].
  cbn [components]. apply appended_related. intros e i He n Hn.
  rewrite forallb_forall in Hd. apply Hd in He. apply distinct_NoDup in He.
  destruct (redacted_contents i e He) as [Ha [Hnames _]].
  split.
  - rewrite filter_by_name, Hnames, filter_app, length_app.
    rewrite (filter_name_of_filtered _ _ _ essentialProps_NoDup Hn).
    cbn [filter]. destruct (String.eqb_spec "summary" n) as [<-|_];
      [|simpl; lia].
    simpl in Hn. intuition discriminate.
  - intros Hs. rewrite Ha, zoned_other_first by exact Hs.
    unfold getFirstProperty at 1. cbn [properties].
    rewrite (find_in_firsts _ _ _ _ essentialProps_NoDup Hn).
    destruct (getFirstProperty e n); [reflexivity|].
    cbn [find busySummary pname].
    destruct (String.eqb_spec "summary" n) as [<-|_]; [|reflexivity].
    simpl in Hn. intuition discriminate.
Qed.

(** X13.  Without obfuscation an event goes into the combined calendar
    whole: the same object with the same name and the same subcomponents
    (alarms stay), the same property objects in the same order with their
    names and parameters, and every property not named dtstart exactly as
    it was. *)
Theorem plain_events_pass_whole :
  forall calendars trees st,
    parseAll parse calendars = Normal trees ->
    exists combined st',
      combineCalendars parse calendars false st = Normal (combined, st')
      /\ Forall2
           (fun e a =>
              cid a = cid e
              /\ cname a = cname e
              /\ components a = components e
              /\ map pid (properties a) = map pid (properties e)
              /\ map pname (properties a) = map pname (properties e)
              /\ map pparams (properties a) = map pparams (properties e)
              /\ (forall p,
                     In p (properties a) -> pname p <> "dtstart" ->
                     In p (properties e)))
           (flat_map (fun t => getAllSubcomponents t "vevent") trees)
           (components combined).
Proof.
  intros calendars trees st H.
  eexists. eexists. split; [apply combineCalendars_spec, H|].
  cbn [components]. apply appended_related. intros e i _. unfold perEvent.
  rewrite zoned_cid, zoned_cname, zoned_components, zoned_ids, zoned_names.
  repeat split.
  - rewrite zoned_properties. apply zonedProperties_params.
  - apply zoned_other_properties.
Qed.

(** X14.  Combining is compatible with concatenation of the source
    lists: the events of the combination of [xs ++ ys] are, name,
    properties and subcomponents, those of the combination of [xs]
    followed by those of the combination of [ys]. *)
Theorem combining_in_batches :
  forall xs ys tx ty obfuscate st st1 st2,
    parseAll parse xs = Normal tx ->
    parseAll parse ys = Normal ty ->
    exists whole sw first s1 second s2,
      combineCalendars parse (xs ++ ys) obfuscate st = Normal (whole, sw)
      /\ combineCalendars parse xs obfuscate st1 = Normal (first, s1)
      /\ combineCalendars parse ys obfuscate st2 = Normal (second, s2)
      /\ map contentOf (components whole)
         = map contentOf (components first)
             ++ map contentOf (components second).
Proof.
  intros xs ys tx ty ob st st1 st2 Hx Hy.
  do 6 eexists.
  split; [apply combineCalendars_spec, (parseAll_app _ _ _ _ _ Hx Hy)|].
  split; [apply combineCalendars_spec, Hx|].
  split; [apply combineCalendars_spec, Hy|].
  cbn [components]. rewrite flat_map_app, appended_app, map_app.
  f_equal; apply appended_content.
Qed.

End MoreOnCombine.

Lemma obfuscation_keeps_first_of_each_name_witness :
  parseAll Sample.parse ["C"; "B"] = Normal [Sample.calendarC; Sample.calendarB]
  /\ forallb (fun e => distinct (map pid (properties e)))
       (flat_map (fun t => getAllSubcomponents t "vevent")
          [Sample.calendarC; Sample.calendarB]) = true
  /\ exists combined st',
       combineCalendars Sample.parse ["C"; "B"] true Sample.store
       = Normal (combined, st')
       /\ Forall2
            (fun e a =>
               forall n,
                 In n essentialProps ->
                 length (filter (fun p => pname p =? n) (properties a))
                 = (if isSome (getFirstProperty e n) then 1 else 0)
                 /\ (n <> "dtstart" ->
                     getFirstProperty a n = getFirstProperty e n))
            (flat_map (fun t => getAllSubcomponents t "vevent")
               [Sample.calendarC; Sample.calendarB])
            (components combined).
Proof.
  split; [reflexivity|]. split; [reflexivity|].
  apply (obfuscation_keeps_first_of_each_name Sample.parse ["C"; "B"]
           [Sample.calendarC; Sample.calendarB]); reflexivity.
Defined.

Lemma plain_events_pass_whole_witness :
  parseAll Sample.parse ["A"; "B"] = Normal [Sample.calendarA; Sample.calendarB]
  /\ exists combined st',
       combineCalendars Sample.parse ["A"; "B"] false Sample.store
       = Normal (combined, st')
       /\ Forall2
            (fun e a =>
               cid a = cid e
               /\ cname a = cname e
               /\ components a = components e
               /\ map pid (properties a) = map pid (properties e)
               /\ map pname (properties a) = map pname (properties e)
               /\ map pparams (properties a) = map pparams (properties e)
               /\ (forall p,
                      In p (properties a) -> pname p <> "dtstart" ->
                      In p (properties e)))
            (flat_map (fun t => getAllSubcomponents t "vevent")
               [Sample.calendarA; Sample.calendarB])
            (components combined).
Proof.
  split; [reflexivity|].
  apply (plain_events_pass_whole Sample.parse ["A"; "B"]
           [Sample.calendarA; Sample.calendarB]); reflexivity.
Defined.

Lemma combining_in_batches_witness :
  parseAll Sample.parse ["A"; "C"] = Normal [Sample.calendarA; Sample.calendarC]
  /\ parseAll Sample.parse ["B"] = Normal [Sample.calendarB]
  /\ exists whole sw first s1 second s2,
       combineCalendars Sample.parse (["A"; "C"] ++ ["B"]) true Sample.store
       = Normal (whole, sw)
       /\ combineCalendars Sample.parse ["A"; "C"] true (mkStore 200)
          = Normal (first, s1)
       /\ combineCalendars Sample.parse ["B"] true (mkStore 300)
          = Normal (second, s2)
       /\ map contentOf (components whole)
          = map contentOf (components first)
              ++ map contentOf (components second).
Proof.
  split; [reflexivity|]. split; [reflexivity|].
  apply (combining_in_batches Sample.parse ["A"; "C"] ["B"]
           [Sample.calendarA; Sample.calendarC] [Sample.calendarB]);
    reflexivity.
Defined.

(** ** The console output of combineCalendars *)

Lemma forEachEventCounting_spec :
  forall obfuscate events calendar combinedCalendar totalEvents st,
    forEachEventCounting obfuscate events calendar combinedCalendar
      totalEvents st
    = Normal
        ((sourceAfter obfuscate events calendar,
          withComponents combinedCalendar
            (components combinedCalendar
               ++ appended obfuscate (nextId st) events),
          totalEvents + length events),
         mkStore (afterEvents obfuscate (nextId st) events)).
Proof.
  intros ob events. induction events as [|e rest IH];
    intros cal comb total [n].
  - simpl. unfold ret, withComponents. rewrite app_nil_r, Nat.add_0_r.
    now destruct comb.
  - simpl. unfold bind. rewrite processEvent_spec. rewrite IH. simpl.
    unfold withComponents. simpl. rewrite <- app_assoc.
    repeat f_equal. lia.
Qed.

Lemma parseAll_throw_split :
  forall parse calendars e,
    parseAll parse calendars = Throw e ->
    exists good bad rest trees,
      calendars = good ++ bad :: rest
      /\ parseAll parse good = Normal trees
      /\ parse bad = Throw e.
Proof.
  intros parse calendars. induction calendars as [|s rest IH]; intros e H;
    [discriminate|].
  simpl in H. destruct (parse s) as [t|e1] eqn:Ht.
  - destruct (parseAll parse rest) as [ts|e2] eqn:Hts; [discriminate|].
    injection H as <-.
    destruct (IH e2 eq_refl) as [good [bad [rest' [trees [-> [Hg Hb]]]]]].
    exists (s :: good), bad, rest', (t :: trees).
    split; [reflexivity|]. split; [|exact Hb]. simpl. now rewrite Ht, Hg.
  - injection H as <-. exists [], s, rest, []. now repeat split.
Qed.

Section LoggedLemmas.

Variable parse : string -> Completion Component.
Variable verbose : bool.

Lemma processCalendarLogged_spec :
  forall obfuscate index calendarData calendar combinedCalendar total st,
    parse calendarData = Normal calendar ->
    processCalendarLogged parse verbose obfuscate index calendarData
      combinedCalendar total st
    = ((if verbose then calendarLines index [calendar] else []),
       Normal
         ((withComponents combinedCalendar
             (components combinedCalendar
                ++ appended obfuscate (nextId st) (vevents calendar)),
           total + length (vevents calendar)),
          mkStore (afterEvents obfuscate (nextId st) (vevents calendar)))).
Proof.
  intros ob index s cal comb total st H.
  unfold processCalendarLogged, andThen, written, quietly, lift, log.
  rewrite H. fold (vevents cal). rewrite forEachEventCounting_spec.
  destruct verbose; reflexivity.
Qed.

Lemma processCalendarLogged_throws :
  forall obfuscate index calendarData e combinedCalendar total st,
    parse calendarData = Throw e ->
    processCalendarLogged parse verbose obfuscate index calendarData
      combinedCalendar total st
    = ((if verbose
        then ["Processing calendar " ++ showNumber (index + 1)]%string
        else []),
       Throw e).
Proof.
  intros ob index s e comb total st H.
  unfold processCalendarLogged, andThen, written, quietly, lift, log.
  rewrite H. destruct verbose; reflexivity.
Qed.

(** The loop over sources that parse, followed by the loop over the
    others. *)
Lemma forEachCalendarLogged_app :
  forall obfuscate good others trees index combinedCalendar total st,
    parseAll parse good = Normal trees ->
    forEachCalendarLogged parse verbose obfuscate index (good ++ others)
      combinedCalendar total st
    = let '(lines, r) :=
        forEachCalendarLogged parse verbose obfuscate (index + length good)
          others
          (withComponents combinedCalendar
             (components combinedCalendar
                ++ appended obfuscate (nextId st) (flat_map vevents trees)))
          (total + length (flat_map vevents trees))
          (mkStore (afterEvents obfuscate (nextId st)
                      (flat_map vevents trees))) in
      ((if verbose then calendarLines index trees else []) ++ lines, r).
Proof.
  intros ob good others. induction good as [|s good IH];
    intros trees index comb total [n] H.
  - simpl in H. injection H as <-. simpl.
    rewrite Nat.add_0_r, app_nil_r, Nat.add_0_r.
    replace (withComponents comb (components comb)) with comb
      by now destruct comb.
    destruct (forEachCalendarLogged parse verbose ob index others comb total
                (mkStore n)) as [lines r].
    now destruct verbose.
  - apply parseAll_cons in H. destruct H as [t [ts [-> [Ht Hts]]]].
    cbn [app forEachCalendarLogged]. unfold andThen at 1.
    rewrite (processCalendarLogged_spec ob index s t comb total _ Ht).
    rewrite (IH ts (S index) _ _ _ Hts).
    cbn [nextId components withComponents flat_map length].
    rewrite appended_app, afterEvents_app, length_app, <- app_assoc,
      Nat.add_assoc, <- plus_n_Sm.
    unfold withComponents. cbn [cid cname properties components].
    destruct (forEachCalendarLogged parse verbose ob _ others _ _ _)
      as [lines r].
    destruct verbose; [|reflexivity].
    cbn [calendarLines app]. reflexivity.
Qed.

Lemma forEachCalendarLogged_spec :
  forall obfuscate calendars trees index combinedCalendar total st,
    parseAll parse calendars = Normal trees ->
    forEachCalendarLogged parse verbose obfuscate index calendars
      combinedCalendar total st
    = ((if verbose then calendarLines index trees else []),
       Normal
         ((withComponents combinedCalendar
             (components combinedCalendar
                ++ appended obfuscate (nextId st) (flat_map vevents trees)),
           total + length (flat_map vevents trees)),
          mkStore (afterEvents obfuscate (nextId st)
                     (flat_map vevents trees)))).
Proof.
  intros ob calendars trees index comb total st H.
  pose proof (forEachCalendarLogged_app ob calendars [] trees index comb
                total st H) as E.
  rewrite app_nil_r in E. rewrite E. cbn [forEachCalendarLogged written].
  now rewrite app_nil_r.
Qed.

Lemma combineCalendarsLogged_returns :
  forall calendars trees obfuscate st,
    parseAll parse calendars = Normal trees ->
    combineCalendarsLogged parse verbose calendars obfuscate st
    = ((if verbose
        then
          [("Combining " ++ showNumber (length calendars)
              ++ " calendars, obfuscate: " ++ showBoolean obfuscate)%string]
            ++ calendarLines 0 trees
            ++ [("Combined calendar created with "
                   ++ showNumber (length (flat_map vevents trees))
                   ++ " total events")%string]
        else []),
       combineCalendars parse calendars obfuscate st).
Proof.
  intros calendars trees ob st H.
  rewrite (combineCalendars_spec parse ob calendars trees st H).
  unfold combineCalendarsLogged, andThen at 1, written at 1, log.
  unfold andThen at 1, quietly, newComponent, fresh, bind, ret.
  unfold andThen at 1.
  rewrite (forEachCalendarLogged_spec ob calendars trees _ _ _ _ H).
  unfold andThen, written. cbn [components app nextId].
  rewrite Nat.add_0_l. destruct verbose; reflexivity.
Qed.

Lemma combineCalendarsLogged_throws :
  forall good bad rest trees e obfuscate st,
    parseAll parse good = Normal trees ->
    parse bad = Throw e ->
    combineCalendarsLogged parse verbose (good ++ bad :: rest) obfuscate st
    = ((if verbose
        then
          [("Combining " ++ showNumber (length (good ++ bad :: rest))
              ++ " calendars, obfuscate: " ++ showBoolean obfuscate)%string]
            ++ calendarLines 0 trees
            ++ [("Processing calendar "
                   ++ showNumber (length good + 1))%string]
        else []),
       Throw e).
Proof.
  intros good bad rest trees e ob st Hg Hb.
  unfold combineCalendarsLogged, andThen at 1, written at 1, log.
  unfold andThen at 1, quietly, newComponent, fresh, bind, ret.
  unfold andThen at 1.
  rewrite (forEachCalendarLogged_app ob good (bad :: rest) trees
             _ _ _ _ Hg).
  cbn [forEachCalendarLogged]. unfold andThen at 1.
  rewrite (processCalendarLogged_throws ob _ bad e _ _ _ Hb).
  destruct verbose; reflexivity.
Qed.

End LoggedLemmas.

Section LoggedClaims.

Variable parse : string -> Completion Component.

(** X17.  Logging changes nothing: whatever [verbose] is, and whether
    the sources parse or not, the run with its log lines returns or
    throws what [combineCalendars] returns or throws; and with [verbose]
    off it writes no line. *)
Theorem logging_is_transparent :
  forall verbose calendars obfuscate st,
    snd (combineCalendarsLogged parse verbose calendars obfuscate st)
    = combineCalendars parse calendars obfuscate st
    /\ fst (combineCalendarsLogged parse false calendars obfuscate st) = [].
Proof.
  intros verbose calendars ob st.
  destruct (parseAll parse calendars) as [trees|e] eqn:E.
  - rewrite !(combineCalendarsLogged_returns parse _ calendars trees ob st E).
    split; reflexivity.
  - destruct (parseAll_throw_split parse calendars e E)
      as [good [bad [rest [trees [-> [Hg Hb]]]]]].
    rewrite !(combineCalendarsLogged_throws parse _ good bad rest trees e ob
                st Hg Hb).
    rewrite (parseAll_throws_combine parse ob _ st e E).
    split; reflexivity.
Qed.

End LoggedClaims.

(** * The run on what the parser hands over *)

Lemma bind_ext :
  forall {A B} (m m' : Js A) (k k' : A -> Js B) st,
    m st = m' st ->
    (forall a st', k a st' = k' a st') ->
    bind m k st = bind m' k' st.
Proof.
  intros A B m m' k k' st Hm Hk. unfold bind. rewrite Hm.
  destruct (m' st) as [[a st']|e]; [apply Hk|reflexivity].
Qed.

Section LazyLemmas.

Variable parse : string -> Completion Wrapped.
Variable decodeError : Property -> option Exception.

Lemma lazy_normalizeStart :
  forall event st,
    Lazy.normalizeStart decodeError event st
    = match Lazy.startError decodeError event with
      | Some e => Throw e
      | None => normalizeStart event st
      end.
Proof.
  intros e st.
  unfold Lazy.normalizeStart, Lazy.startError, Lazy.getFirstPropertyValue,
    normalizeStart, getFirstPropertyValue, bind, lift.
  destruct (getFirstProperty e "dtstart") as [p|]; [|reflexivity].
  destruct (getFirstValue p) as [v|]; [|reflexivity].
  destruct (decodeError p); reflexivity.
Qed.

(** The start the loop decodes in a redacted event is the first start of
    the source event, the same object. *)
Lemma lazy_startError_redacted :
  forall id e,
    Lazy.startError decodeError (redactedAs id e)
    = Lazy.startError decodeError e.
Proof.
  intros id e. unfold Lazy.startError, Lazy.getFirstPropertyValue.
  now rewrite redacted_first_start.
Qed.

Lemma lazy_processEvent :
  forall obfuscate event calendar combinedCalendar st,
    Lazy.processEvent decodeError obfuscate event calendar combinedCalendar st
    = match Lazy.startError decodeError event with
      | Some e => Throw e
      | None => processEvent obfuscate event calendar combinedCalendar st
      end.
Proof.
  intros [|] e cal comb st; rewrite processEvent_spec;
    unfold Lazy.processEvent.
  - unfold bind at 1. unfold bind at 1. rewrite obfuscateEvent_spec.
    unfold ret at 1. unfold bind.
    rewrite lazy_normalizeStart, lazy_startError_redacted.
    destruct (Lazy.startError decodeError e); [reflexivity|].
    rewrite normalizeStart_spec. now destruct st.
  - unfold bind at 1. unfold ret at 1. unfold bind.
    rewrite lazy_normalizeStart.
    destruct (Lazy.startError decodeError e); [reflexivity|].
    rewrite normalizeStart_spec. now destruct st.
Qed.

Lemma lazy_forEachEvent :
  forall obfuscate events calendar combinedCalendar st,
    Lazy.forEachEvent decodeError obfuscate events calendar combinedCalendar st
    = match Lazy.firstStartError decodeError events with
      | Some e => Throw e
      | None => forEachEvent obfuscate events calendar combinedCalendar st
      end.
Proof.
  intros ob events. induction events as [|e rest IH]; intros cal comb st.
  - reflexivity.
  - cbn [Lazy.forEachEvent Lazy.firstStartError forEachEvent].
    unfold bind. rewrite lazy_processEvent.
    destruct (Lazy.startError decodeError e); [reflexivity|].
    rewrite processEvent_spec. now rewrite IH.
Qed.

Lemma lazy_forEachEventCounting :
  forall obfuscate events calendar combinedCalendar totalEvents st,
    Lazy.forEachEventCounting decodeError obfuscate events calendar
      combinedCalendar totalEvents st
    = match Lazy.firstStartError decodeError events with
      | Some e => Throw e
      | None =>
          forEachEventCounting obfuscate events calendar combinedCalendar
            totalEvents st
      end.
Proof.
  intros ob events. induction events as [|e rest IH]; intros cal comb total st.
  - reflexivity.
  - cbn [Lazy.forEachEventCounting Lazy.firstStartError forEachEventCounting].
    unfold bind. rewrite lazy_processEvent.
    destruct (Lazy.startError decodeError e); [reflexivity|].
    rewrite processEvent_spec. now rewrite IH.
Qed.

(** What [Lazy.checked] lets through. *)
Lemma checked_normal :
  forall calendarData calendar,
    Lazy.checked parse decodeError calendarData = Normal calendar
    <-> parse calendarData = Normal (Calendar calendar)
        /\ Lazy.firstStartError decodeError (vevents calendar) = None.
Proof.
  intros s c. unfold Lazy.checked, vevents.
  destruct (parse s) as [[c'|]|e].
  - destruct (Lazy.firstStartError decodeError
                (getAllSubcomponents c' "vevent")) as [x|] eqn:E.
    + split; [discriminate|]. intros [H1 H2]. injection H1 as ->.
      congruence.
    + split.
      * intros H. injection H as ->. now split.
      * intros [H1 _]. now injection H1 as ->.
  - split; [discriminate|]. intros [H _]. discriminate.
  - split; [discriminate|]. intros [H _]. discriminate.
Qed.

(** What it stops at, and why. *)
Lemma checked_throws :
  forall calendarData e,
    Lazy.checked parse decodeError calendarData = Throw e
    <-> parse calendarData = Throw e
        \/ (parse calendarData = Normal NoSubcomponents
            /\ e = lengthOfUndefined)
        \/ (exists calendar,
               parse calendarData = Normal (Calendar calendar)
               /\ Lazy.firstStartError decodeError (vevents calendar)
                  = Some e).
Proof.
  intros s e. unfold Lazy.checked, vevents.
  destruct (parse s) as [[c|]|e0].
  - destruct (Lazy.firstStartError decodeError
                (getAllSubcomponents c "vevent")) as [x|] eqn:E.
    + split.
      * intros H. injection H as <-. right. right. now exists c.
      * intros [H|[[H _]|[c' [H1 H2]]]]; try discriminate.
        injection H1 as <-. congruence.
    + split; [discriminate|].
      intros [H|[[H _]|[c' [H1 H2]]]]; try discriminate.
      injection H1 as <-. congruence.
  - split.
    + intros H. injection H as <-. right. left. now split.
    + intros [H|[[_ ->]|[c' [H1 _]]]]; try discriminate. reflexivity.
  - split.
    + intros H. injection H as <-. now left.
    + intros [H|[[H _]|[c' [H1 _]]]]; try discriminate. now injection H as <-.
Qed.

(** The body of the loop over the sources is the one of [processCalendar]
    for the source as the loop gets through it. *)
Lemma lazy_processCalendar :
  forall obfuscate calendarData combinedCalendar st,
    Lazy.processCalendar parse decodeError obfuscate calendarData
      combinedCalendar st
    = processCalendar (Lazy.checked parse decodeError) obfuscate calendarData
        combinedCalendar st.
Proof.
  intros ob s comb st.
  unfold Lazy.processCalendar, processCalendar, Lazy.checked.
  unfold bind at 1. unfold bind at 1. unfold lift at 1. unfold lift at 2.
  destruct (parse s) as [[c|]|e]; try reflexivity.
  rewrite lazy_forEachEvent.
  now destruct (Lazy.firstStartError decodeError
                  (getAllSubcomponents c "vevent")).
Qed.

Lemma lazy_forEachCalendar :
  forall obfuscate calendars combinedCalendar st,
    Lazy.forEachCalendar parse decodeError obfuscate calendars
      combinedCalendar st
    = forEachCalendar (Lazy.checked parse decodeError) obfuscate calendars
        combinedCalendar st.
Proof.
  intros ob calendars. induction calendars as [|s rest IH]; intros comb st.
  - reflexivity.
  - cbn [Lazy.forEachCalendar forEachCalendar].
    apply bind_ext; [apply lazy_processCalendar|].
    intros [c comb'] st'. apply bind_ext; [apply IH|reflexivity].
Qed.

(** The run is the one of [combineCalendars] for the sources as the loop
    gets through them: the same combined calendar, the same exception. *)
Lemma lazy_combineCalendars :
  forall calendars obfuscate st,
    Lazy.combineCalendars parse decodeError calendars obfuscate st
    = combineCalendars (Lazy.checked parse decodeError) calendars obfuscate st.
Proof.
  intros calendars ob st.
  unfold Lazy.combineCalendars, combineCalendars, combineCalendarsAndSources,
    newComponent, fresh, bind, ret.
  now rewrite lazy_forEachCalendar.
Qed.

Section LazyLogged.

Variable verbose : bool.

Lemma lazy_processCalendarLogged :
  forall obfuscate index calendarData calendar combinedCalendar total st,
    Lazy.checked parse decodeError calendarData = Normal calendar ->
    Lazy.processCalendarLogged parse decodeError verbose obfuscate index
      calendarData combinedCalendar total st
    = ((if verbose then calendarLines index [calendar] else []),
       Normal
         ((withComponents combinedCalendar
             (components combinedCalendar
                ++ appended obfuscate (nextId st) (vevents calendar)),
           total + length (vevents calendar)),
          mkStore (afterEvents obfuscate (nextId st) (vevents calendar)))).
Proof.
  intros ob index s cal comb total st H.
  apply checked_normal in H. destruct H as [Hp Hf].
  unfold Lazy.processCalendarLogged, andThen, written, quietly, lift, log.
  rewrite Hp. fold (vevents cal).
  rewrite lazy_forEachEventCounting, Hf, forEachEventCounting_spec.
  destruct verbose; reflexivity.
Qed.

(** A source the parser refuses, and one wrapped as a value without
    list of subcomponents: the run stops after the line that announces
    the source. *)
Lemma lazy_processCalendarLogged_refused :
  forall obfuscate index calendarData e combinedCalendar total st,
    parse calendarData = Throw e
    \/ (parse calendarData = Normal NoSubcomponents
        /\ e = lengthOfUndefined) ->
    Lazy.processCalendarLogged parse decodeError verbose obfuscate index
      calendarData combinedCalendar total st
    = ((if verbose
        then ["Processing calendar " ++ showNumber (index + 1)]%string
        else []),
       Throw e).
Proof.
  intros ob index s e comb total st H.
  unfold Lazy.processCalendarLogged, andThen, written, quietly, lift, log.
  destruct H as [H|[H ->]]; rewrite H; destruct verbose; reflexivity.
Qed.

(** A source with an event whose start does not decode: the run stops
    after the line that counts the events of the source. *)
Lemma lazy_processCalendarLogged_undecoded :
  forall obfuscate index calendarData calendar e combinedCalendar total st,
    parse calendarData = Normal (Calendar calendar) ->
    Lazy.firstStartError decodeError (vevents calendar) = Some e ->
    Lazy.processCalendarLogged parse decodeError verbose obfuscate index
      calendarData combinedCalendar total st
    = ((if verbose
        then ["Processing calendar " ++ showNumber (index + 1);
              "Calendar " ++ showNumber (index + 1) ++ " has "
                ++ showNumber (length (vevents calendar)) ++ " events"]%string
        else []),
       Throw e).
Proof.
  intros ob index s cal e comb total st Hp Hf.
  unfold Lazy.processCalendarLogged, andThen, written, quietly, lift, log.
  rewrite Hp. fold (vevents cal). rewrite lazy_forEachEventCounting, Hf.
  destruct verbose; reflexivity.
Qed.

Lemma lazy_forEachCalendarLogged_app :
  forall obfuscate good others trees index combinedCalendar total st,
    parseAll (Lazy.checked parse decodeError) good = Normal trees ->
    Lazy.forEachCalendarLogged parse decodeError verbose obfuscate index
      (good ++ others) combinedCalendar total st
    = let '(lines, r) :=
        Lazy.forEachCalendarLogged parse decodeError verbose obfuscate
          (index + length good) others
          (withComponents combinedCalendar
             (components combinedCalendar
                ++ appended obfuscate (nextId st) (flat_map vevents trees)))
          (total + length (flat_map vevents trees))
          (mkStore (afterEvents obfuscate (nextId st)
                      (flat_map vevents trees))) in
      ((if verbose then calendarLines index trees else []) ++ lines, r).
Proof.
  intros ob good others. induction good as [|s good IH];
    intros trees index comb total [n] H.
  - simpl in H. injection H as <-. simpl.
    rewrite Nat.add_0_r, app_nil_r, Nat.add_0_r.
    replace (withComponents comb (components comb)) with comb
      by now destruct comb.
    destruct (Lazy.forEachCalendarLogged parse decodeError verbose ob index
                others comb total (mkStore n)) as [lines r].
    now destruct verbose.
  - apply parseAll_cons in H. destruct H as [t [ts [-> [Ht Hts]]]].
    cbn [app Lazy.forEachCalendarLogged]. unfold andThen at 1.
    rewrite (lazy_processCalendarLogged ob index s t comb total _ Ht).
    rewrite (IH ts (S index) _ _ _ Hts).
    cbn [nextId components withComponents flat_map length].
    rewrite appended_app, afterEvents_app, length_app, <- app_assoc,
      Nat.add_assoc, <- plus_n_Sm.
    unfold withComponents. cbn [cid cname properties components].
    destruct (Lazy.forEachCalendarLogged parse decodeError verbose ob _
                others _ _ _) as [lines r].
    destruct verbose; [|reflexivity].
    cbn [calendarLines app]. reflexivity.
Qed.

Lemma lazy_combineCalendarsLogged_returns :
  forall calendars trees obfuscate st,
    parseAll (Lazy.checked parse decodeError) calendars = Normal trees ->
    Lazy.combineCalendarsLogged parse decodeError verbose calendars obfuscate
      st
    = ((if verbose
        then
          [("Combining " ++ showNumber (length calendars)
              ++ " calendars, obfuscate: " ++ showBoolean obfuscate)%string]
            ++ calendarLines 0 trees
            ++ [("Combined calendar created with "
                   ++ showNumber (length (flat_map vevents trees))
                   ++ " total events")%string]
        else []),
       Lazy.combineCalendars parse decodeError calendars obfuscate st).
Proof.
  intros calendars trees ob st H.
  rewrite lazy_combineCalendars.
  rewrite (combineCalendars_spec _ ob calendars trees st H).
  unfold Lazy.combineCalendarsLogged, andThen at 1, written at 1, log.
  unfold andThen at 1, quietly, newComponent, fresh, bind, ret.
  unfold andThen at 1.
  pose proof (lazy_forEachCalendarLogged_app ob calendars [] trees 0
                (mkComponent (nextId st) "vcalendar" [] []) 0
                (mkStore (S (nextId st))) H) as E.
  rewrite app_nil_r in E. rewrite E.
  cbn [Lazy.forEachCalendarLogged written].
  unfold andThen, written. cbn [components app nextId].
  rewrite Nat.add_0_l, app_nil_r. destruct verbose; reflexivity.
Qed.

(** The run over sources the loop gets through, then a source at which it
    stops with the lines [last]. *)
Lemma lazy_combineCalendarsLogged_stops :
  forall good bad rest trees last e obfuscate st,
    parseAll (Lazy.checked parse decodeError) good = Normal trees ->
    (forall combinedCalendar total st',
        Lazy.processCalendarLogged parse decodeError verbose obfuscate
          (length good) bad combinedCalendar total st'
        = ((if verbose then last else []), Throw e)) ->
    Lazy.combineCalendarsLogged parse decodeError verbose
      (good ++ bad :: rest) obfuscate st
    = ((if verbose
        then
          [("Combining " ++ showNumber (length (good ++ bad :: rest))
              ++ " calendars, obfuscate: " ++ showBoolean obfuscate)%string]
            ++ calendarLines 0 trees ++ last
        else []),
       Throw e).
Proof.
  intros good bad rest trees last e ob st Hg Hb.
  unfold Lazy.combineCalendarsLogged, andThen at 1, written at 1, log.
  unfold andThen at 1, quietly, newComponent, fresh, bind, ret.
  unfold andThen at 1.
  rewrite (lazy_forEachCalendarLogged_app ob good (bad :: rest) trees
             _ _ _ _ Hg).
  cbn [Lazy.forEachCalendarLogged]. unfold andThen at 1.
  rewrite Nat.add_0_l, Hb.
  destruct verbose; reflexivity.
Qed.

End LazyLogged.

(** C7, as the code has it.  For sources that each parse, hold one
    calendar object, and have events whose first start decodes, and for
    both values of [obfuscate], [combineCalendars] completes normally
    with a combined calendar; an event without any dtstart is appended as
    it is (no obfuscation) or as its redaction (obfuscation). *)
Theorem combine_returns_when_starts_decode :
  forall calendars trees obfuscate st,
    parseAll (Lazy.checked parse decodeError) calendars = Normal trees ->
    exists combined st',
      Lazy.combineCalendars parse decodeError calendars obfuscate st
      = Normal (combined, st')
      /\ Forall2
           (fun e a =>
              getFirstProperty e "dtstart" = None ->
              if obfuscate then exists id, a = redactedAs id e else a = e)
           (flat_map (fun t => getAllSubcomponents t "vevent") trees)
           (components combined).
Proof.
  intros calendars trees ob st H. rewrite lazy_combineCalendars.
  eexists. eexists. split; [apply combineCalendars_spec, H|].
  cbn [components]. apply appended_related. intros e i _ Hs.
  unfold perEvent. destruct ob.
  - exists i. apply zoned_without_start. now rewrite redacted_first_start.
  - now apply zoned_without_start.
Qed.

(** X11.  One source at which the loop stops aborts the whole run: the
    exception of the first such source, in the order of the sources, is
    thrown, whether its text does not parse, is wrapped as a value
    without list of subcomponents (the empty text, two calendar objects),
    or has an event whose first start does not decode; no combined
    calendar is returned, whatever the other sources hold. *)
Theorem first_failing_source_aborts_the_run :
  forall good bad rest trees e obfuscate st,
    parseAll (Lazy.checked parse decodeError) good = Normal trees ->
    Lazy.checked parse decodeError bad = Throw e ->
    Lazy.combineCalendars parse decodeError (good ++ bad :: rest) obfuscate st
    = Throw e.
Proof.
  intros good bad rest trees e ob st Hg Hb. rewrite lazy_combineCalendars.
  apply parseAll_throws_combine.
  eapply parseAll_app_throw; eassumption.
Qed.

(** X15.  For sources the loop gets through, with [verbose] on,
    [combineCalendars] logs the number of sources and the flag, then for
    each source its number (from 1) and its number of events, and last
    the total, which is the number of events of the combined calendar it
    returns. *)
Theorem log_reports_the_events :
  forall calendars trees obfuscate st,
    parseAll (Lazy.checked parse decodeError) calendars = Normal trees ->
    exists combined st',
      Lazy.combineCalendars parse decodeError calendars obfuscate st
      = Normal (combined, st')
      /\ Lazy.combineCalendarsLogged parse decodeError true calendars
           obfuscate st
         = ([("Combining " ++ showNumber (length calendars)
                ++ " calendars, obfuscate: " ++ showBoolean obfuscate)%string]
              ++ calendarLines 0 trees
              ++ [("Combined calendar created with "
                     ++ showNumber (length (components combined))
                     ++ " total events")%string],
            Normal (combined, st')).
Proof.
  intros calendars trees ob st H.
  rewrite (lazy_combineCalendarsLogged_returns true calendars trees ob st H).
  rewrite lazy_combineCalendars.
  rewrite (combineCalendars_spec _ ob calendars trees st H).
  eexists. eexists. split; [reflexivity|].
  cbn [components]. now rewrite appended_length.
Qed.

(** X16.  With [verbose] on, the last line logged tells where the run
    stopped.  After the lines of the sources the loop got through: when
    the text of source k does not parse, or is wrapped as a value without
    list of subcomponents, the last line is "Processing calendar k"; when
    the first start of one of its events does not decode, the count of
    its events, "Calendar k has n events", follows that line.  The line
    of the total is not logged. *)
Theorem log_tells_where_the_run_stopped :
  forall good bad rest trees obfuscate st,
    parseAll (Lazy.checked parse decodeError) good = Normal trees ->
    (forall e,
        parse bad = Throw e ->
        Lazy.combineCalendarsLogged parse decodeError true
          (good ++ bad :: rest) obfuscate st
        = ([("Combining " ++ showNumber (length (good ++ bad :: rest))
               ++ " calendars, obfuscate: " ++ showBoolean obfuscate)%string]
             ++ calendarLines 0 trees
             ++ [("Processing calendar "
                    ++ showNumber (length good + 1))%string],
           Throw e))
    /\ (parse bad = Normal NoSubcomponents ->
        Lazy.combineCalendarsLogged parse decodeError true
          (good ++ bad :: rest) obfuscate st
        = ([("Combining " ++ showNumber (length (good ++ bad :: rest))
               ++ " calendars, obfuscate: " ++ showBoolean obfuscate)%string]
             ++ calendarLines 0 trees
             ++ [("Processing calendar "
                    ++ showNumber (length good + 1))%string],
           Throw lengthOfUndefined))
    /\ (forall calendar e,
           parse bad = Normal (Calendar calendar) ->
           Lazy.firstStartError decodeError
             (getAllSubcomponents calendar "vevent") = Some e ->
           Lazy.combineCalendarsLogged parse decodeError true
             (good ++ bad :: rest) obfuscate st
           = ([("Combining " ++ showNumber (length (good ++ bad :: rest))
                  ++ " calendars, obfuscate: "
                  ++ showBoolean obfuscate)%string]
                ++ calendarLines 0 trees
                ++ [("Processing calendar "
                       ++ showNumber (length good + 1))%string;
                    ("Calendar " ++ showNumber (length good + 1) ++ " has "
                       ++ showNumber
                            (length (getAllSubcomponents calendar "vevent"))
                       ++ " events")%string],
              Throw e)).
Proof.
  intros good bad rest trees ob st Hg. split; [|split].
  - intros e Hb.
    apply (lazy_combineCalendarsLogged_stops true good bad rest trees
             _ e ob st Hg).
    intros comb total st'.
    exact (lazy_processCalendarLogged_refused true ob _ bad e comb total st'
             (or_introl Hb)).
  - intros Hb.
    apply (lazy_combineCalendarsLogged_stops true good bad rest trees
             _ lengthOfUndefined ob st Hg).
    intros comb total st'.
    exact (lazy_processCalendarLogged_refused true ob _ bad lengthOfUndefined
             comb total st' (or_intror (conj Hb eq_refl))).
  - intros cal e Hp Hf.
    apply (lazy_combineCalendarsLogged_stops true good bad rest trees
             _ e ob st Hg).
    intros comb total st'.
    exact (lazy_processCalendarLogged_undecoded true ob _ bad cal e comb
             total st' Hp Hf).
Qed.

End LazyLemmas.

(** C7 as stated fails: the parser accepts the text E, whose second event
    has the start [DTSTART:20240102], and the empty text; the run over a
    sample calendar and E throws the decoder's error under either value
    of [obfuscate], and the run over the empty text throws a TypeError. *)
Lemma accepted_sources_make_combine_throw :
  Accepted.parse "A" = Normal (Calendar Sample.calendarA)
  /\ Accepted.parse "E" = Normal (Calendar Accepted.calendarE)
  /\ Accepted.parse "" = Normal NoSubcomponents
  /\ Lazy.combineCalendars Accepted.parse Accepted.decodeError ["A"; "E"]
       false Sample.store
     = Throw (Error "invalid date-time value")
  /\ Lazy.combineCalendars Accepted.parse Accepted.decodeError ["A"; "E"]
       true Sample.store
     = Throw (Error "invalid date-time value")
  /\ Lazy.combineCalendars Accepted.parse Accepted.decodeError [""]
       false Sample.store
     = Throw lengthOfUndefined
  /\ Lazy.combineCalendars Accepted.parse Accepted.decodeError [""]
       true Sample.store
     = Throw lengthOfUndefined.
Proof.
  repeat split.
Qed.

Lemma combine_returns_when_starts_decode_witness :
  parseAll (Lazy.checked Accepted.parse Accepted.decodeError) ["A"; "B"]
  = Normal [Sample.calendarA; Sample.calendarB]
  /\ exists combined st',
       Lazy.combineCalendars Accepted.parse Accepted.decodeError ["A"; "B"]
         true Sample.store
       = Normal (combined, st')
       /\ Forall2
            (fun e a =>
               getFirstProperty e "dtstart" = None ->
               if true then exists id, a = redactedAs id e else a = e)
            (flat_map (fun t => getAllSubcomponents t "vevent")
               [Sample.calendarA; Sample.calendarB])
            (components combined).
Proof.
  split; [reflexivity|].
  apply (combine_returns_when_starts_decode Accepted.parse
           Accepted.decodeError ["A"; "B"]
           [Sample.calendarA; Sample.calendarB]); reflexivity.
Defined.

Lemma first_failing_source_aborts_the_run_witness :
  parseAll (Lazy.checked Accepted.parse Accepted.decodeError) ["A"]
  = Normal [Sample.calendarA]
  /\ Lazy.checked Accepted.parse Accepted.decodeError "E"
     = Throw (Error "invalid date-time value")
  /\ Lazy.combineCalendars Accepted.parse Accepted.decodeError
       (["A"] ++ "E" :: ["<html>Not Found</html>"]) true Sample.store
     = Throw (Error "invalid date-time value").
Proof.
  split; [reflexivity|]. split; [reflexivity|].
  apply (first_failing_source_aborts_the_run Accepted.parse
           Accepted.decodeError ["A"] "E" ["<html>Not Found</html>"]
           [Sample.calendarA]); reflexivity.
Defined.

Lemma log_reports_the_events_witness :
  parseAll (Lazy.checked Accepted.parse Accepted.decodeError) ["A"; "B"]
  = Normal [Sample.calendarA; Sample.calendarB]
  /\ exists combined st',
       Lazy.combineCalendars Accepted.parse Accepted.decodeError ["A"; "B"]
         true Sample.store
       = Normal (combined, st')
       /\ Lazy.combineCalendarsLogged Accepted.parse Accepted.decodeError
            true ["A"; "B"] true Sample.store
          = ([("Combining " ++ showNumber (length ["A"; "B"])
                 ++ " calendars, obfuscate: " ++ showBoolean true)%string]
               ++ calendarLines 0 [Sample.calendarA; Sample.calendarB]
               ++ [("Combined calendar created with "
                      ++ showNumber (length (components combined))
                      ++ " total events")%string],
             Normal (combined, st')).
Proof.
  split; [reflexivity|].
  apply (log_reports_the_events Accepted.parse Accepted.decodeError
           ["A"; "B"] [Sample.calendarA; Sample.calendarB]); reflexivity.
Defined.

Lemma log_tells_where_the_run_stopped_witness :
  parseAll (Lazy.checked Accepted.parse Accepted.decodeError) ["A"]
  = Normal [Sample.calendarA]
  /\ (forall e,
         Accepted.parse "E" = Throw e ->
         Lazy.combineCalendarsLogged Accepted.parse Accepted.decodeError true
           (["A"] ++ "E" :: ["B"]) false Sample.store
         = ([("Combining " ++ showNumber (length (["A"] ++ "E" :: ["B"]))
                ++ " calendars, obfuscate: " ++ showBoolean false)%string]
              ++ calendarLines 0 [Sample.calendarA]
              ++ [("Processing calendar "
                     ++ showNumber (length ["A"] + 1))%string],
            Throw e))
  /\ (Accepted.parse "E" = Normal NoSubcomponents ->
      Lazy.combineCalendarsLogged Accepted.parse Accepted.decodeError true
        (["A"] ++ "E" :: ["B"]) false Sample.store
      = ([("Combining " ++ showNumber (length (["A"] ++ "E" :: ["B"]))
             ++ " calendars, obfuscate: " ++ showBoolean false)%string]
           ++ calendarLines 0 [Sample.calendarA]
           ++ [("Processing calendar "
                  ++ showNumber (length ["A"] + 1))%string],
         Throw lengthOfUndefined))
  /\ (forall calendar e,
         Accepted.parse "E" = Normal (Calendar calendar) ->
         Lazy.firstStartError Accepted.decodeError
           (getAllSubcomponents calendar "vevent") = Some e ->
         Lazy.combineCalendarsLogged Accepted.parse Accepted.decodeError true
           (["A"] ++ "E" :: ["B"]) false Sample.store
         = ([("Combining " ++ showNumber (length (["A"] ++ "E" :: ["B"]))
                ++ " calendars, obfuscate: " ++ showBoolean false)%string]
              ++ calendarLines 0 [Sample.calendarA]
              ++ [("Processing calendar "
                     ++ showNumber (length ["A"] + 1))%string;
                  ("Calendar " ++ showNumber (length ["A"] + 1) ++ " has "
                     ++ showNumber
                          (length (getAllSubcomponents calendar "vevent"))
                     ++ " events")%string],
            Throw e)).
Proof.
  split; [reflexivity|].
  apply (log_tells_where_the_run_stopped Accepted.parse Accepted.decodeError
           ["A"] "E" ["B"] [Sample.calendarA]); reflexivity.
Defined.

(** The lines of three runs that stop at their second source: at an
    event of the text E, at the empty text, and at a text the parser
    refuses. *)
Lemma log_of_a_run_that_stops :
  Lazy.combineCalendarsLogged Accepted.parse Accepted.decodeError true
    ["A"; "E"; "B"] false Sample.store
  = (["Combining 3 calendars, obfuscate: false";
      "Processing calendar 1";
      "Calendar 1 has 1 events";
      "Processing calendar 2";
      "Calendar 2 has 2 events"],
     Throw (Error "invalid date-time value"))
  /\ Lazy.combineCalendarsLogged Accepted.parse Accepted.decodeError true
       ["A"; ""; "B"] true Sample.store
     = (["Combining 3 calendars, obfuscate: true";
         "Processing calendar 1";
         "Calendar 1 has 1 events";
         "Processing calendar 2"],
        Throw lengthOfUndefined)
  /\ Lazy.combineCalendarsLogged Accepted.parse Accepted.decodeError true
       ["A"; "<html>Not Found</html>"; "B"] true Sample.store
     = (["Combining 3 calendars, obfuscate: true";
         "Processing calendar 1";
         "Calendar 1 has 1 events";
         "Processing calendar 2"],
        Throw (Error "invalid ical body")).
Proof.
  repeat split.
Qed.
